(** * Position aggregation engine of the Binance futures pipeline

    A shallow embedding of [aggregator.py] (with the constants of
    [config.py] it reads) and the properties of the fold that turns fills
    into position round-trips.

    Modelling choices, all taken from the source:
    - a Python [float] is an IEEE binary64 value: Rocq's primitive [float],
      with the kernel's operations and the specification lemmas of
      [FloatAxioms];
    - a pandas [Timestamp] is an integer count of time units ([Z]), a
      [Timedelta] the difference of two of them; [pd.NaT] is [None];
    - the [state] dictionary is an association list in insertion order, as
      a Python [dict] is; [state.items()] walks it front to back;
    - raising is explicit: every function that can raise returns a
      [result];
    - the final [sort_values(["open_time"])] is not a stable sort: the
      aggregator takes the sort kind as a parameter, and the properties
      are proved for every kind. *)

From Stdlib Require Import Floats ZArith String List Bool Permutation Sorted Lia.
Import ListNotations.

Set Implicit Arguments.

Local Open Scope string_scope.
Local Open Scope list_scope.
Local Open Scope float_scope.

(** ** config.py *)

Module config.
Definition NUMERIC_COLUMNS : list string :=
  ["price"; "qty"; "realizedPnl"; "quoteQty"; "commission"].
Definition POSITION_SIDE_DEFAULT : string := "BOTH".
(** The literal [1e-12], as the binary64 value Python reads it to. *)
Definition MIN_QTY_THRESHOLD : float := 0x1.19799812dea11p-40.
End config.

(** ** Exceptions *)

Definition Key : Type := (string * string)%type.

Inductive exception : Type :=
| KeyError (label : string)      (* a missing column label *)
| KeyErrorKey (key : Key).       (* a missing dictionary key *)

Inductive result (A : Type) : Type :=
| Ok (a : A)
| Raise (e : exception).

Arguments Ok {A} a.
Arguments Raise {A} e.

Definition bind {A B : Type} (m : result A) (k : A -> result B) : result B :=
  match m with
  | Ok a => k a
  | Raise e => Raise e
  end.

Notation "x <- m ;; k" := (bind m (fun x => k))
  (at level 61, m at next level, right associativity).
Notation "' p <- m ;; k" := (bind m (fun x => let p := x in k))
  (at level 61, p pattern, m at next level, right associativity).

(** ** Python helpers *)

(** [max(a, b)] of Python: the first argument unless the second is
    strictly greater. *)
Definition py_max (a b : float) : float := if a <? b then b else a.

Definition Timestamp : Type := Z.
Definition Timedelta : Type := Z.

(** ** Rows of the fills frame *)

(** A cell of a numeric column as [read_csv] leaves it: a float ([nan] for
    an empty cell), or text that [pd.to_numeric] cannot read. *)
Inductive cell : Type :=
| Num (f : float)
| Text (s : string).

(** [pd.to_numeric(_, errors="coerce")] *)
Definition to_numeric_coerce (c : cell) : float :=
  match c with
  | Num f => f
  | Text _ => nan
  end.

(** [.fillna(0.0)] *)
Definition fillna0 (f : float) : float := if is_nan f then 0 else f.

Module Raw.
(** A row of the input frame; the frame has every column of a fill. *)
Record t : Type := mk {
  symbol : string;
  positionSide : string;
  side : string;
  qty : cell;
  price : cell;
  commission : cell;
  realizedPnl : cell;
  quoteQty : cell;
  time : Timestamp;
  id : Z
}.
End Raw.

Module Row.
(** A row as the loop and [_signed_qty] see it: a [pd.Series].  The
    label [positionSide] may be missing from a Series, hence the
    option; [row.get] supplies the default. *)
Record t : Type := mk {
  symbol : string;
  positionSide : option string;
  side : string;
  qty : float;
  price : float;
  commission : float;
  realizedPnl : float;
  quoteQty : float;
  time : Timestamp;
  id : Z
}.

(** [row.get("positionSide", config.POSITION_SIDE_DEFAULT)] *)
Definition get_positionSide (row : t) : string :=
  match positionSide row with
  | Some ps => ps
  | None => config.POSITION_SIDE_DEFAULT
  end.
End Row.

(** ** _signed_qty *)

Definition _signed_qty (row : Row.t) : float :=
  let qty := Row.qty row in
  let side := Row.side row in
  let ps := Row.get_positionSide row in
  if (ps =? "LONG")%string then
    if (side =? "BUY")%string then qty else - qty
  else if (ps =? "SHORT")%string then
    if (side =? "SELL")%string then qty else - qty
  else
    if (side =? "BUY")%string then qty else - qty.

(** ** Position state and emitted records *)

Inductive Direction : Type := LONG | SHORT.

Inductive Status : Type := OPEN | CLOSED.

Module St.
(** A value of the [state] dictionary. *)
Record t : Type := mk {
  symbol : string;
  positionSide : string;
  open_time : Timestamp;
  close_time : option Timestamp;
  direction : Direction;
  qty_opened : float;
  entry_notional : float;
  max_abs_qty : float;
  fills : Z;
  commission : float;
  realizedPnl : float;
  net_qty : float
}.

Definition key (st : t) : Key := (symbol st, positionSide st).
End St.

Module Pos.
(** A position record: a dictionary appended to [positions] or
    [open_positions], later a row of the output frame.  [status] and
    [net_qty] are [None] where the dictionary has no such key, or the
    frame no such cell.  [duration_min] holds the [Timedelta] the
    minutes are computed from. *)
Record t : Type := mk {
  symbol : string;
  positionSide : string;
  direction : Direction;
  open_time : Timestamp;
  close_time : option Timestamp;
  duration_min : option Timedelta;
  max_position_qty : float;
  entry_qty : float;
  entry_vwap : float;
  realizedPnl : float;
  commission : float;
  net_pnl_after_fees : float;
  fills : Z;
  status : option Status;
  net_qty : option float
}.

Definition key (r : t) : Key := (symbol r, positionSide r).

Definition set_status (s : option Status) (r : t) : t :=
  mk (symbol r) (positionSide r) (direction r) (open_time r) (close_time r)
     (duration_min r) (max_position_qty r) (entry_qty r) (entry_vwap r)
     (realizedPnl r) (commission r) (net_pnl_after_fees r) (fills r)
     s (net_qty r).
End Pos.

(** ** The [state] dictionary *)

Definition key_eqb (a b : Key) : bool :=
  (fst a =? fst b)%string && (snd a =? snd b)%string.

Definition dict : Type := list (Key * St.t).

(** [state.get(key)] *)
Fixpoint dict_get (key : Key) (d : dict) : option St.t :=
  match d with
  | [] => None
  | (k, v) :: d' => if key_eqb key k then Some v else dict_get key d'
  end.

(** [key in state] *)
Definition dict_mem (key : Key) (d : dict) : bool :=
  match dict_get key d with
  | Some _ => true
  | None => false
  end.

(** [state[key]] *)
Definition dict_getitem (key : Key) (d : dict) : result St.t :=
  match dict_get key d with
  | Some v => Ok v
  | None => Raise (KeyErrorKey key)
  end.

(** [state[key] = v]: an existing key keeps its place, a new one goes
    last. *)
Fixpoint dict_set (key : Key) (v : St.t) (d : dict) : dict :=
  match d with
  | [] => [(key, v)]
  | (k, w) :: d' =>
      if key_eqb key k then (k, v) :: d' else (k, w) :: dict_set key v d'
  end.

(** [del state[key]] *)
Definition dict_del (key : Key) (d : dict) : dict :=
  filter (fun kv => negb (key_eqb key (fst kv))) d.

(** ** The fold of aggregate_trades_to_positions *)

(** [abs(st["net_qty"]) < config.MIN_QTY_THRESHOLD] *)
Definition is_flat (net_qty : float) : bool :=
  abs net_qty <? config.MIN_QTY_THRESHOLD.

(** The dictionary literal of [start_state]. *)
Definition new_state (first_row : Row.t) (signed_q : float) : St.t :=
  {| St.symbol := Row.symbol first_row;
     St.positionSide := Row.get_positionSide first_row;
     St.open_time := Row.time first_row;
     St.close_time := None;
     St.direction := if 0 <? signed_q then LONG else SHORT;
     St.qty_opened := 0;
     St.entry_notional := 0;
     St.max_abs_qty := 0;
     St.fills := 0;
     St.commission := 0;
     St.realizedPnl := 0;
     St.net_qty := 0 |}.

Definition start_state (state : dict) (key : Key) (first_row : Row.t)
    (signed_q : float) : dict :=
  dict_set key (new_state first_row signed_q) state.

(** [entry_vwap], as both emitters compute it. *)
Definition entry_vwap_of (entry_notional entry_qty : float) : float :=
  if 0 <? entry_qty then entry_notional / entry_qty else 0.

(** The dictionary [flush_if_closed] appends. *)
Definition closed_record (st : St.t) : Pos.t :=
  let entry_qty := abs (St.qty_opened st) in
  let entry_vwap := entry_vwap_of (St.entry_notional st) entry_qty in
  {| Pos.symbol := St.symbol st;
     Pos.positionSide := St.positionSide st;
     Pos.direction := St.direction st;
     Pos.open_time := St.open_time st;
     Pos.close_time := St.close_time st;
     Pos.duration_min :=
       match St.close_time st with
       | Some c => Some (c - St.open_time st)%Z
       | None => None
       end;
     Pos.max_position_qty := St.max_abs_qty st;
     Pos.entry_qty := entry_qty;
     Pos.entry_vwap := entry_vwap;
     Pos.realizedPnl := St.realizedPnl st;
     Pos.commission := St.commission st;
     Pos.net_pnl_after_fees := St.realizedPnl st - St.commission st;
     Pos.fills := St.fills st;
     Pos.status := None;
     Pos.net_qty := None |}.

Definition flush_if_closed (positions : list Pos.t) (state : dict) (key : Key)
  : result (list Pos.t * dict) :=
  st <- dict_getitem key state ;;
  if is_flat (St.net_qty st) then
    Ok (positions ++ [closed_record st], dict_del key state)
  else
    Ok (positions, state).

(** Lines 127-141 of the loop body: the fill applied to the accumulator. *)
Definition opening_sign (d : Direction) : float :=
  match d with
  | LONG => 1
  | SHORT => -1
  end.

Definition extends_position (st : St.t) (signed_q : float) : bool :=
  0 <? opening_sign (St.direction st) * signed_q.

Definition apply_fill (st : St.t) (row : Row.t) (signed_q : float) : St.t :=
  let price := Row.price row in
  let prev_net := St.net_qty st in
  let new_net := prev_net + signed_q in
  let extends := extends_position st signed_q in
  {| St.symbol := St.symbol st;
     St.positionSide := St.positionSide st;
     St.open_time := St.open_time st;
     St.close_time := St.close_time st;
     St.direction := St.direction st;
     St.qty_opened :=
       if extends then St.qty_opened st + signed_q else St.qty_opened st;
     St.entry_notional :=
       if extends then St.entry_notional st + price * abs signed_q
       else St.entry_notional st;
     St.max_abs_qty := py_max (St.max_abs_qty st) (abs new_net);
     St.fills := (St.fills st + 1)%Z;
     St.commission := St.commission st + Row.commission row;
     St.realizedPnl := St.realizedPnl st + Row.realizedPnl row;
     St.net_qty := new_net |}.

(** [(prev_net > 0 and new_net < 0) or (prev_net < 0 and new_net > 0)] *)
Definition crosses_zero (prev_net new_net : float) : bool :=
  ((0 <? prev_net) && (new_net <? 0)) || ((prev_net <? 0) && (0 <? new_net)).

(** Lines 145-146: the closing leg of a flip. *)
Definition close_at_flip (st : St.t) (t : Timestamp) : St.t :=
  {| St.symbol := St.symbol st;
     St.positionSide := St.positionSide st;
     St.open_time := St.open_time st;
     St.close_time := Some t;
     St.direction := St.direction st;
     St.qty_opened := St.qty_opened st;
     St.entry_notional := St.entry_notional st;
     St.max_abs_qty := St.max_abs_qty st;
     St.fills := St.fills st;
     St.commission := St.commission st;
     St.realizedPnl := St.realizedPnl st;
     St.net_qty := 0 |}.

(** Line 163: [st["close_time"] = row["time"]]. *)
Definition set_close_time (st : St.t) (t : Timestamp) : St.t :=
  {| St.symbol := St.symbol st;
     St.positionSide := St.positionSide st;
     St.open_time := St.open_time st;
     St.close_time := Some t;
     St.direction := St.direction st;
     St.qty_opened := St.qty_opened st;
     St.entry_notional := St.entry_notional st;
     St.max_abs_qty := St.max_abs_qty st;
     St.fills := St.fills st;
     St.commission := St.commission st;
     St.realizedPnl := St.realizedPnl st;
     St.net_qty := St.net_qty st |}.

(** Lines 153-159: the fields written over the state [start_state] made
    for the leftover of a flip. *)
Definition open_leftover (st2 : St.t) (price leftover : float) : St.t :=
  {| St.symbol := St.symbol st2;
     St.positionSide := St.positionSide st2;
     St.open_time := St.open_time st2;
     St.close_time := St.close_time st2;
     St.direction := St.direction st2;
     St.qty_opened := leftover;
     St.entry_notional := price * abs leftover;
     St.max_abs_qty := abs leftover;
     St.fills := 1;
     St.commission := 0;
     St.realizedPnl := 0;
     St.net_qty := leftover |}.

(** [key = (row["symbol"], row.get("positionSide", ...))] *)
Definition row_key (row : Row.t) : Key :=
  (Row.symbol row, Row.get_positionSide row).

(** Lines 127-164 of the loop body, for the accumulator [st] bound at
    lines 120-125.  The local [st] names a dictionary object; while that
    object is [state[key]] a write to [st] is a write to the entry
    ([dict_set key st state]).  After the flip branch has rebound
    [state[key]], [st] still names the closed object: [attached] records
    whether a write to [st] reaches [state]. *)
Definition settle_row (positions : list Pos.t) (state : dict) (st : St.t)
    (row : Row.t) (signed_q : float) : result (list Pos.t * dict) :=
  let key := row_key row in
  let price := Row.price row in
  let prev_net := St.net_qty st in
  let new_net := prev_net + signed_q in
  let st := apply_fill st row signed_q in
  let state := dict_set key st state in
  (* Handle position flips (crossing zero) *)
  '(positions, state, st, attached) <-
    (if crosses_zero prev_net new_net then
       let st := close_at_flip st (Row.time row) in
       let state := dict_set key st state in
       '(positions, state) <- flush_if_closed positions state key ;;
       (* Start new position with leftover *)
       let leftover := new_net in
       let state := start_state state key row leftover in
       st2 <- dict_getitem key state ;;
       let state := dict_set key (open_leftover st2 price leftover) state in
       Ok (positions, state, st, false)
     else Ok (positions, state, st, true)) ;;
  (* Normal close (reaching zero) *)
  if is_flat (St.net_qty st) then
    let st := set_close_time st (Row.time row) in
    let state := if attached : bool then dict_set key st state else state in
    flush_if_closed positions state key
  else Ok (positions, state).

(** The body of the loop over the rows. *)
Definition process_row (acc : list Pos.t * dict) (row : Row.t)
  : result (list Pos.t * dict) :=
  let '(positions, state) := acc in
  let key := row_key row in
  let signed_q := _signed_qty row in
  (* Initialize state if needed *)
  let state :=
    if dict_mem key state then state
    else start_state state key row signed_q in
  st <- dict_getitem key state ;;
  (* If state is flat, restart *)
  '(state, st) <-
    (if is_flat (St.net_qty st) then
       let state := start_state state key row signed_q in
       st <- dict_getitem key state ;;
       Ok (state, st)
     else Ok (state, st)) ;;
  settle_row positions state st row signed_q.

(** [for _, row in df.iterrows(): ...] *)
Fixpoint fold_rows (rows : list Row.t) (acc : list Pos.t * dict)
  : result (list Pos.t * dict) :=
  match rows with
  | [] => Ok acc
  | row :: rows' => acc' <- process_row acc row ;; fold_rows rows' acc'
  end.

(** The dictionary appended to [open_positions] for a state left in
    [state] when the rows are exhausted. *)
Definition open_record (st : St.t) : Pos.t :=
  let entry_qty := abs (St.qty_opened st) in
  let entry_vwap := entry_vwap_of (St.entry_notional st) entry_qty in
  {| Pos.symbol := St.symbol st;
     Pos.positionSide := St.positionSide st;
     Pos.direction := St.direction st;
     Pos.open_time := St.open_time st;
     Pos.close_time := None;
     Pos.duration_min := None;
     Pos.max_position_qty := St.max_abs_qty st;
     Pos.entry_qty := entry_qty;
     Pos.entry_vwap := entry_vwap;
     Pos.realizedPnl := St.realizedPnl st;
     Pos.commission := St.commission st;
     Pos.net_pnl_after_fees := St.realizedPnl st - St.commission st;
     Pos.fills := St.fills st;
     Pos.status := Some OPEN;
     Pos.net_qty := Some (St.net_qty st) |}.

(** [for key, st in list(state.items()): open_positions.append(...)] *)
Definition open_positions_of (state : dict) : list Pos.t :=
  map (fun kv => open_record (snd kv)) state.

(** ** Frames of position records *)

Record DataFrame : Type := mkDataFrame {
  columns : list string;
  rows : list Pos.t
}.

Definition closed_keys : list string :=
  ["symbol"; "positionSide"; "direction"; "open_time"; "close_time";
   "duration_min"; "max_position_qty"; "entry_qty"; "entry_vwap";
   "realizedPnl"; "commission"; "net_pnl_after_fees"; "fills"].

Definition open_keys : list string := closed_keys ++ ["status"; "net_qty"].

Definition has_label (label : string) (cols : list string) : bool :=
  existsb (String.eqb label) cols.

(** [pd.DataFrame(records)] for dictionaries that all have the keys
    [keys]: an empty list gives a frame without columns. *)
Definition DataFrame_of (keys : list string) (records : list Pos.t) : DataFrame :=
  {| columns := match records with [] => [] | _ :: _ => keys end;
     rows := records |}.

(** [df.empty]: some axis has length zero. *)
Definition empty (df : DataFrame) : bool :=
  match rows df, columns df with
  | _ :: _, _ :: _ => false
  | _, _ => true
  end.

(** [df["status"] = v] *)
Definition set_status_column (v : Status) (df : DataFrame) : DataFrame :=
  {| columns :=
       if has_label "status" (columns df) then columns df
       else columns df ++ ["status"];
     rows := map (Pos.set_status (Some v)) (rows df) |}.

(** [pd.concat([a, b], ignore_index=True)]: the union of the columns in
    order of first appearance; a cell that a frame lacks is missing in the
    rows it contributes, as it already is in the records. *)
Definition concat (a b : DataFrame) : DataFrame :=
  {| columns :=
       columns a ++ filter (fun c => negb (has_label c (columns a))) (columns b);
     rows := rows a ++ rows b |}.

(** ** Sorting *)

Section Sorting.
Variable A : Type.
Variable leb : A -> A -> bool.

Fixpoint insert (x : A) (l : list A) : list A :=
  match l with
  | [] => [x]
  | y :: l' => if leb x y then x :: l else y :: insert x l'
  end.

(** A stable sort: equal elements keep their order. *)
Fixpoint sort (l : list A) : list A :=
  match l with
  | [] => []
  | x :: l' => insert x (sort l')
  end.
End Sorting.

(** The key of [sort_values(["symbol", "positionSide", "time", "id"])],
    compared lexicographically; strings compare as Python's do, by code
    point. *)
Definition SortKey : Type := (string * string * Z * Z)%type.

Definition sort_key (row : Row.t) : SortKey :=
  (Row.symbol row, Row.get_positionSide row, Row.time row, Row.id row).

Definition lex_compare {A B : Type} (ca : A -> A -> comparison)
    (cb : B -> B -> comparison) (x y : A * B) : comparison :=
  match ca (fst x) (fst y) with
  | Eq => cb (snd x) (snd y)
  | c => c
  end.

Definition key_compare : SortKey -> SortKey -> comparison :=
  lex_compare
    (lex_compare (lex_compare String.compare String.compare) Z.compare)
    Z.compare.

Definition row_leb (a b : Row.t) : bool :=
  match key_compare (sort_key a) (sort_key b) with
  | Gt => false
  | _ => true
  end.

Definition open_time_leb (a b : Pos.t) : bool :=
  (Pos.open_time a <=? Pos.open_time b)%Z.

(** The [kind] of [sort_values]: "quicksort" (the default), "mergesort",
    "heapsort" or "stable".  Every kind returns the rows in ascending
    order of the key; the kinds differ in the order they leave rows with
    equal keys in, and for quicksort numpy does not fix that order (it
    depends on the length of the array and on the build).  A kind is
    given by how it [arranges] the rows: the result is in ascending
    order, rows with equal keys in the order the kind has arranged them
    in.  Every function that returns a sorted permutation of its argument
    is the sort of a kind ([sort_kind_complete]). *)
Record SortKind : Type := mkSortKind {
  arranges : list Pos.t -> list Pos.t;
  arranges_perm : forall l, Permutation (arranges l) l
}.

(** The kinds "stable" and "mergesort": rows with equal keys keep their
    order. *)
Definition stable : SortKind :=
  {| arranges := fun l => l; arranges_perm := fun l => Permutation_refl l |}.

(** A kind that is not stable: rows with equal keys come out in reverse
    order. *)
Definition reversing : SortKind :=
  {| arranges := fun l => rev l;
     arranges_perm := fun l => Permutation_sym (Permutation_rev l) |}.

(** [df.sort_values(["open_time"], kind=kind)]: a frame without that
    column raises. *)
Definition sort_values_open_time (kind : SortKind) (df : DataFrame)
  : result DataFrame :=
  if has_label "open_time" (columns df) then
    Ok {| columns := columns df;
          rows := sort open_time_leb (arranges kind (rows df)) |}
  else Raise (KeyError "open_time").

(** ** aggregate_trades_to_positions *)

(** Lines 56-58: the five columns of [config.NUMERIC_COLUMNS] coerced,
    [nan] replaced by [0.0]; [pd.to_datetime] leaves a [Timestamp] as it
    is.  The frame has the [positionSide] column, so every row carries the
    label. *)
Definition normalize (r : Raw.t) : Row.t :=
  {| Row.symbol := Raw.symbol r;
     Row.positionSide := Some (Raw.positionSide r);
     Row.side := Raw.side r;
     Row.qty := fillna0 (to_numeric_coerce (Raw.qty r));
     Row.price := fillna0 (to_numeric_coerce (Raw.price r));
     Row.commission := fillna0 (to_numeric_coerce (Raw.commission r));
     Row.realizedPnl := fillna0 (to_numeric_coerce (Raw.realizedPnl r));
     Row.quoteQty := fillna0 (to_numeric_coerce (Raw.quoteQty r));
     Row.time := Raw.time r;
     Row.id := Raw.id r |}.

(** Lines 190-195: the closed and the open records put together. *)
Definition combine (positions open_positions : list Pos.t) : DataFrame :=
  let positions_df := DataFrame_of closed_keys positions in
  let open_df := DataFrame_of open_keys open_positions in
  if negb (empty open_df) then
    concat (set_status_column CLOSED positions_df) open_df
  else positions_df.

(** Line 61 sorts by four columns; pandas sorts by several columns with a
    lexicographic sort that keeps the order of rows with equal keys, as
    [sort] does.  Line 197 sorts by one column with the default kind,
    [quicksort]; which order it leaves rows with equal [open_time] in is
    not known, so the aggregator is modelled for every kind. *)
Definition aggregate_trades_to_positions (quicksort : SortKind)
    (df : list Raw.t) : result DataFrame :=
  let df := map normalize df in
  let df := sort row_leb df in
  '(positions, state) <- fold_rows df ([], []) ;;
  let open_positions := open_positions_of state in
  sort_values_open_time quicksort (combine positions open_positions).

(** The records of a result; none when the call raised. *)
Definition records_of (r : result DataFrame) : list Pos.t :=
  match r with
  | Ok df => rows df
  | Raise _ => []
  end.

(** ** Definitions used in the statements and proofs *)

(** The accumulator a fill is applied to (lines 117-125), from the entry
    of the fill's key before the fill. *)
Definition begin_state (o : option St.t) (row : Row.t) : St.t :=
  match o with
  | Some st =>
      if is_flat (St.net_qty st) then new_state row (_signed_qty row) else st
  | None => new_state row (_signed_qty row)
  end.

(** What lines 127-164 do to the row's key: the records appended and the
    entry left, from the accumulator [st0] the fill is applied to. *)
Definition key_settle (st0 : St.t) (row : Row.t) (signed_q : float)
  : list Pos.t * option St.t :=
  let new_net := St.net_qty st0 + signed_q in
  let st := apply_fill st0 row signed_q in
  if crosses_zero (St.net_qty st0) new_net then
    let closed := closed_record (close_at_flip st (Row.time row)) in
    let st2 := open_leftover (new_state row new_net) (Row.price row) new_net in
    if is_flat new_net then ([closed; closed_record st2], None)
    else ([closed], Some st2)
  else if is_flat new_net then
    ([closed_record (set_close_time st (Row.time row))], None)
  else ([], Some st).

(** What one row does to its own key.  [process_row_key_step] proves that
    [process_row] does exactly this. *)
Definition key_step (o : option St.t) (row : Row.t) : list Pos.t * option St.t :=
  key_settle (begin_state o row) row (_signed_qty row).

(** The accumulators [flush_if_closed] makes records of while one row is
    processed: at a flip the accumulator closed at line 145 and, when the
    leftover is below the threshold, the one lines 151-159 made for it
    (line 164 finds it in [state]); without a flip, the accumulator closed
    at line 163.  [key_settle_flushed] proves that the records appended
    are the records of these accumulators, in this order. *)
Definition key_flushed (st0 : St.t) (row : Row.t) (signed_q : float)
  : list St.t :=
  let new_net := St.net_qty st0 + signed_q in
  let st := apply_fill st0 row signed_q in
  if crosses_zero (St.net_qty st0) new_net then
    let st2 := open_leftover (new_state row new_net) (Row.price row) new_net in
    close_at_flip st (Row.time row) :: (if is_flat new_net then [st2] else [])
  else if is_flat new_net then [set_close_time st (Row.time row)]
  else [].

(** The accumulators flushed by the loop over [rows] from [acc] on, in
    the order of their records. *)
Fixpoint flushed_states (rows : list Row.t) (acc : list Pos.t * dict)
  : list St.t :=
  match rows with
  | [] => []
  | row :: rows' =>
      key_flushed (begin_state (dict_get (row_key row) (snd acc)) row) row
        (_signed_qty row) ++
      match process_row acc row with
      | Ok acc' => flushed_states rows' acc'
      | Raise _ => []
      end
  end.

(** The accumulators flushed while a frame of fills is aggregated. *)
Definition flushed_by (df : list Raw.t) : list St.t :=
  flushed_states (sort row_leb (map normalize df)) ([], []).

(** A float that is not below zero: [nan], a zero of either sign, or a
    positive value. *)
Definition sf_not_negative (s : spec_float) : Prop :=
  SFltb s (S754_zero false) = false.

(** [d'] comes from [d] by assignments to and deletions of [key] only,
    every assigned value satisfying [P]. *)
Inductive updates (key : Key) (P : St.t -> Prop) (d : dict) : dict -> Prop :=
| updates_refl : updates key P d d
| updates_set (d' : dict) (v : St.t) :
    updates key P d d' -> P v -> updates key P d (dict_set key v d')
| updates_del (d' : dict) :
    updates key P d d' -> updates key P d (dict_del key d').

(** The invariant of [state]: no key twice, and every entry filed under
    the key its own fields spell. *)
Definition dict_ok (d : dict) : Prop :=
  NoDup (map fst d) /\ Forall (fun kv => St.key (snd kv) = fst kv) d.

(** The values [process_row] may store: filed under the row's key, or
    under the key of the entry found there. *)
Definition stored_by (state : dict) (row : Row.t) (v : St.t) : Prop :=
  St.key v = row_key row \/
  exists st, dict_get (row_key row) state = Some st /\ St.key v = St.key st.

(** No entry of [state] is flat: between two rows, a live state has a
    net quantity at or above the threshold. *)
Definition live_not_flat (state : dict) : Prop :=
  forall k st, dict_get k state = Some st -> is_flat (St.net_qty st) = false.

(** The records of one key. *)
Definition records_for (key : Key) (l : list Pos.t) : list Pos.t :=
  filter (fun r => key_eqb (Pos.key r) key) l.

(** A record without the CLOSED tag that [df["status"] = "CLOSED"] adds. *)
Definition without_closed_tag (r : Pos.t) : Pos.t :=
  match Pos.status r with
  | Some CLOSED => Pos.set_status None r
  | _ => r
  end.

(** What the fold holds for one key: the records appended so far and the
    live accumulator. *)
Definition project (key : Key) (acc : list Pos.t * dict)
  : list Pos.t * option St.t :=
  (records_for key (fst acc), dict_get key (snd acc)).

Definition is_key (key : Key) (row : Row.t) : bool :=
  key_eqb (row_key row) key.

(** The closed records and the dictionary the loop ends with
    ([fold_rows_ok]: the loop does not raise). *)
Definition run_fold (df : list Raw.t) : list Pos.t * dict :=
  match fold_rows (sort row_leb (map normalize df)) ([], []) with
  | Ok acc => acc
  | Raise _ => ([], [])
  end.

Definition raw_key (r : Raw.t) : Key := (Raw.symbol r, Raw.positionSide r).

(** The frame without the fills of one key. *)
Definition drop_key (key : Key) (df : list Raw.t) : list Raw.t :=
  filter (fun r => negb (key_eqb (raw_key r) key)) df.

(** The order a boolean comparison decides. *)
Definition le_of {A : Type} (leb : A -> A -> bool) (a b : A) : Prop :=
  leb a b = true.

(** A comparison that is a strict total order. *)
Record order_compare (A : Type) (cmp : A -> A -> comparison) : Prop := {
  cmp_opp : forall a b, cmp a b = CompOpp (cmp b a);
  cmp_eq : forall a b, cmp a b = Eq -> a = b;
  cmp_lt_trans : forall a b c, cmp a b = Lt -> cmp b c = Lt -> cmp a c = Lt
}.

(** A fill whose signed delta is strictly against the opening direction
    of the state. *)
Definition opposes_opening (st : St.t) (signed_q : float) : bool :=
  opening_sign (St.direction st) * signed_q <? 0.

(** ** Definitions for the further properties of the aggregator *)

(** A row that carries the status OPEN. *)
Definition is_open (r : Pos.t) : bool :=
  match Pos.status r with
  | Some OPEN => true
  | _ => false
  end.

(** ** Inputs of the examples *)

(** A fill with readable numbers. *)
Definition fill (symbol positionSide side : string) (qty price commission
    realizedPnl : float) (time : Timestamp) (id : Z) : Raw.t :=
  Raw.mk symbol positionSide side (Num qty) (Num price) (Num commission)
    (Num realizedPnl) (Num (price * qty)) time id.

Definition row_long_buy : Row.t :=
  Row.mk "BTCUSDT" (Some "LONG") "BUY" 2 100 0 0 200 1%Z 1%Z.

Definition row_odd_sell : Row.t :=
  Row.mk "BTCUSDT" (Some "HEDGE") "SELL" 2 100 0 0 200 1%Z 1%Z.

Definition st_long_one : St.t :=
  St.mk "BTCUSDT" "BOTH" 1%Z None LONG 1 100 1 1%Z 0 0 1.

Definition row_sell_three : Row.t :=
  Row.mk "BTCUSDT" (Some "BOTH") "SELL" 3 110 0.25 20 330 2%Z 2%Z.

Definition row_zero_qty : Row.t :=
  Row.mk "ETHUSDT" (Some "BOTH") "BUY" 0 2000 0.5 0 0 7%Z 42%Z.

Definition row_sell_half : Row.t :=
  Row.mk "BTCUSDT" (Some "BOTH") "SELL" 0.5 110 0 5 55 2%Z 2%Z.

(** BUY 1 at 100, then SELL 1 at 110: one round trip, nothing left open. *)
Definition fills_round_trip : list Raw.t :=
  [fill "BTCUSDT" "BOTH" "BUY" 1 100 0.25 0 1%Z 1%Z;
   fill "BTCUSDT" "BOTH" "SELL" 1 110 0.25 10 2%Z 2%Z].

(** A long round trip, and a short leg of the same symbol left open. *)
Definition fills_hedged : list Raw.t :=
  [fill "BTCUSDT" "LONG" "BUY" 1 100 0.25 0 1%Z 1%Z;
   fill "BTCUSDT" "SHORT" "SELL" 1 105 0.25 0 2%Z 2%Z;
   fill "BTCUSDT" "LONG" "SELL" 1 110 0.25 10 3%Z 3%Z].

(** The round trip in another order of arrival. *)
Definition fills_round_trip_swapped : list Raw.t :=
  [fill "BTCUSDT" "BOTH" "SELL" 1 110 0.25 10 2%Z 2%Z;
   fill "BTCUSDT" "BOTH" "BUY" 1 100 0.25 0 1%Z 1%Z].

(** A round trip whose opening fill has a negative price. *)
Definition fill_negative_price : Raw.t :=
  fill "BTCUSDT" "BOTH" "BUY" 1 (-100) 0 0 1%Z 1%Z.

Definition fills_negative_price : list Raw.t :=
  [fill_negative_price; fill "BTCUSDT" "BOTH" "SELL" 1 50 0 0 2%Z 2%Z].

(** BUY 1, then SELL 1 + 2^-44: a flip whose leftover is below the
    threshold. *)
Definition fills_flip_dust : list Raw.t :=
  [fill "BTCUSDT" "BOTH" "BUY" 1 100 0 0 1%Z 1%Z;
   fill "BTCUSDT" "BOTH" "SELL" 0x1.00000000001p+0 110 0.25 10 2%Z 2%Z].

(** Fills of two symbols, interleaved in time. *)
Definition fills_two_symbols : list Raw.t :=
  [fill "BTCUSDT" "BOTH" "BUY" 1 100 0.25 0 1%Z 1%Z;
   fill "ETHUSDT" "BOTH" "SELL" 2 2000 0.5 0 2%Z 1%Z;
   fill "BTCUSDT" "BOTH" "SELL" 1 110 0.25 10 3%Z 2%Z;
   fill "ETHUSDT" "BOTH" "BUY" 1 1900 0.5 100 4%Z 2%Z].

(** A record with a close time was opened no later than it was closed,
    and its duration is the difference. *)
Definition closes_after_open (r : Pos.t) : Prop :=
  forall c, Pos.close_time r = Some c ->
            (Pos.open_time r <= c)%Z /\
            Pos.duration_min r = Some (c - Pos.open_time r)%Z.

(** A record without a close time looks like the leftover of a flip. *)
Definition leftover_if_no_close_time (r : Pos.t) : Prop :=
  Pos.close_time r = None ->
  Pos.fills r = 1%Z /\ Pos.commission r = 0 /\ Pos.realizedPnl r = 0 /\
  Pos.duration_min r = None /\
  (Pos.entry_qty r <? config.MIN_QTY_THRESHOLD) = true.

(** Later fills for the round trip. *)
Definition fills_later : list Raw.t :=
  [fill "BTCUSDT" "BOTH" "BUY" 2 120 0.25 0 3%Z 3%Z].

(** * state_manager.py *)

Module Watermark.
(** The JSON object of the state file; either key may be missing. *)
Record t : Type := mk {
  last_trade_time_ms : option Z;
  last_id_by_symbol : option (list (string * Z))
}.
End Watermark.

(** [d.get(symbol)] and [d[symbol] = v] for the dictionary of ids. *)
Fixpoint ids_get (symbol : string) (ids : list (string * Z)) : option Z :=
  match ids with
  | [] => None
  | (s, v) :: ids' => if (symbol =? s)%string then Some v else ids_get symbol ids'
  end.

Fixpoint ids_set (symbol : string) (v : Z) (ids : list (string * Z))
  : list (string * Z) :=
  match ids with
  | [] => [(symbol, v)]
  | (s, w) :: ids' =>
      if (symbol =? s)%string then (s, v) :: ids'
      else (s, w) :: ids_set symbol v ids'
  end.

(** [state.get("last_trade_time_ms", 0)] *)
Definition get_last_trade_time (state : Watermark.t) : Z :=
  match Watermark.last_trade_time_ms state with
  | Some t => t
  | None => 0%Z
  end.

(** [state.get("last_id_by_symbol", {}).get(symbol, 0)] *)
Definition get_symbol_last_id (state : Watermark.t) (symbol : string) : Z :=
  match Watermark.last_id_by_symbol state with
  | Some ids =>
      match ids_get symbol ids with
      | Some i => i
      | None => 0%Z
      end
  | None => 0%Z
  end.

(** [max(...)] over integers; [None] is the [ValueError] of an empty
    argument. *)
Definition max_of (l : list Z) : option Z :=
  match l with
  | [] => None
  | x :: l' => Some (fold_left Z.max l' x)
  end.

(** [set(t['symbol'] for t in trades)], in some order of iteration: the
    symbols, each once. *)
Definition symbol_set (trades : list Raw.t) : list string :=
  nodup String.string_dec (map Raw.symbol trades).

(** Lines 83-86: the loop over the symbols. *)
Fixpoint update_ids (symbols : list string) (trades : list Raw.t)
    (ids : list (string * Z)) : option (list (string * Z)) :=
  match symbols with
  | [] => Some ids
  | symbol :: symbols' =>
      let symbol_trades :=
        filter (fun t => (Raw.symbol t =? symbol)%string) trades in
      match max_of (map Raw.id symbol_trades) with
      | Some max_id => update_ids symbols' trades (ids_set symbol max_id ids)
      | None => None
      end
  end.

(** [update_watermark]; a trade dictionary has the fields of a row of
    fills, of which [time], [symbol] and [id] are read.  [None] is a
    [ValueError] out of [max]. *)
Definition update_watermark (state : Watermark.t) (trades : list Raw.t)
  : option Watermark.t :=
  match trades with
  | [] => Some state
  | _ :: _ =>
      match max_of (map Raw.time trades) with
      | None => None
      | Some max_time =>
          let time_ms := Z.max (get_last_trade_time state) max_time in
          let ids :=
            match Watermark.last_id_by_symbol state with
            | Some ids => ids
            | None => []
            end in
          match update_ids (symbol_set trades) trades ids with
          | Some ids' => Some (Watermark.mk (Some time_ms) (Some ids'))
          | None => None
          end
      end
  end.

(** * binance_client.py *)

(** What one call of [session.request] does: a response with a status
    code, or a [RequestException]. *)
Inductive Outcome : Type :=
| Responded (status_code : Z)
| RequestException.

Inductive Retried : Type :=
| Returned (status_code : Z)
| RuntimeError.

(** The result of [request_with_retry], with the number of requests made
    and the attempts after which it slept. *)
Record RetryRun : Type := mkRetryRun {
  retried : Retried;
  attempts : nat;
  slept : list nat
}.

(** [resp.raise_for_status()] raises [HTTPError], a [RequestException],
    for the codes 400 to 599. *)
Definition raises_for_status (status_code : Z) : bool :=
  (400 <=? status_code)%Z && (status_code <? 600)%Z.

(** [resp.status_code in (429, 418) or resp.status_code >= 500] *)
Definition retryable_status (status_code : Z) : bool :=
  (status_code =? 429)%Z || (status_code =? 418)%Z || (500 <=? status_code)%Z.

(** The loop [for attempt in range(max_retries)] from [attempt] on, with
    [remaining] rounds to go; [net] tells what the network does at each
    attempt. *)
Fixpoint retry_loop (net : nat -> Outcome) (max_retries remaining attempt : nat)
    (slept : list nat) : RetryRun :=
  match remaining with
  | O => mkRetryRun RuntimeError attempt slept
  | S remaining' =>
      let on_exception :=
        if (attempt + 1 <? max_retries)%nat then
          retry_loop net max_retries remaining' (attempt + 1) (slept ++ [attempt])
        else mkRetryRun RuntimeError (attempt + 1) slept in
      match net attempt with
      | Responded status_code =>
          if retryable_status status_code then
            retry_loop net max_retries remaining' (attempt + 1) (slept ++ [attempt])
          else if raises_for_status status_code then on_exception
          else mkRetryRun (Returned status_code) (attempt + 1) slept
      | RequestException => on_exception
      end
  end.

Definition request_with_retry (net : nat -> Outcome) (max_retries : nat)
  : RetryRun :=
  retry_loop net max_retries max_retries 0 [].

(** An attempt that does not end the call with a response. *)
Definition attempt_fails (o : Outcome) : bool :=
  match o with
  | Responded status_code => (400 <=? status_code)%Z
  | RequestException => true
  end.

(** [get_symbols_to_query]: [csv_symbols] is the [symbol] column of the
    fills file ([None] for an empty cell), or [None] when the file is
    missing, empty or unreadable.  A set is a list without duplicates. *)
Definition get_symbols_to_query (active_symbols : list string)
    (csv_symbols : option (list (option string))) : list string :=
  let historical :=
    match csv_symbols with
    | Some column =>
        flat_map (fun c => match c with Some s => [s] | None => [] end) column
    | None => []
    end in
  let symbols := nodup String.string_dec (active_symbols ++ historical) in
  sort String.leb symbols.

(** * output_writer.py *)

(** What [format_positions_summary] does up to the two counts of lines
    105-106: the text for an empty frame, a [KeyError] for the key
    [False], or the counts that go into the summary. *)
Inductive Summary : Type :=
| NoPositions
| SummaryKeyError (key : bool)
| SummaryCounts (open_count closed_count : nat).

Definition has_status (s : Status) (r : Pos.t) : bool :=
  match Pos.status r, s with
  | Some OPEN, OPEN => true
  | Some CLOSED, CLOSED => true
  | _, _ => false
  end.

(** Without a status column [positions_df.get('status', 'CLOSED')] is the
    string ['CLOSED'], the comparison with ['OPEN'] is [False], and
    [positions_df[False]] raises. *)
Definition format_positions_summary (positions_df : DataFrame) : Summary :=
  if empty positions_df then NoPositions
  else if has_label "status" (columns positions_df) then
    SummaryCounts (length (filter (has_status OPEN) (rows positions_df)))
                  (length (filter (has_status CLOSED) (rows positions_df)))
  else SummaryKeyError false.

(** [write_positions_csv]: the frame written, if any, and the count
    returned. *)
Definition write_positions_csv (positions_df : DataFrame)
  : option DataFrame * nat :=
  if empty positions_df then (None, 0%nat)
  else (Some positions_df, length (rows positions_df)).

(** A network that answers 429, then fails, then answers 200. *)
Definition net_recovers (attempt : nat) : Outcome :=
  match attempt with
  | O => Responded 429
  | S O => RequestException
  | _ => Responded 200
  end.

(** A network that always answers 404. *)
Definition net_not_found (attempt : nat) : Outcome := Responded 404.

(** A SELL of 1 on the SHORT side. *)
Definition row_short_sell : Row.t :=
  Row.mk "BTCUSDT" (Some "SHORT") "SELL" 1 105 0.25 0 105 2%Z 2%Z.

(** The fills counted by a list of records, and by the live states. *)
Definition sum_fills (l : list Pos.t) : Z :=
  fold_right (fun r a => (Pos.fills r + a)%Z) 0%Z l.

Definition sum_state_fills (d : dict) : Z :=
  fold_right (fun kv a => (St.fills (snd kv) + a)%Z) 0%Z d.

(** The ids of the trades of a symbol in a batch. *)
Definition batch_ids (symbol : string) (trades : list Raw.t) : list Z :=
  map Raw.id (filter (fun t => (Raw.symbol t =? symbol)%string) trades).

(** The fills counted by an entry of [state], if there is one. *)
Definition fills_of (o : option St.t) : Z :=
  match o with
  | Some st => St.fills st
  | None => 0%Z
  end.

(** * Properties *)

(** ** Keys and the dictionary *)

Lemma key_eqb_eq (a b : Key) : key_eqb a b = true <-> a = b.
Proof.
  destruct a as [a1 a2], b as [b1 b2]. unfold key_eqb. cbn [fst snd].
  rewrite andb_true_iff, !String.eqb_eq. split.
  - intros [-> ->]. reflexivity.
  - intros [= -> ->]. split; reflexivity.
Qed.

Lemma key_eqb_refl (a : Key) : key_eqb a a = true.
Proof. apply key_eqb_eq. reflexivity. Qed.

Lemma key_eqb_neq (a b : Key) : key_eqb a b = false <-> a <> b.
Proof.
  rewrite <- key_eqb_eq. destruct (key_eqb a b); split; congruence.
Qed.

Lemma key_eqb_sym (a b : Key) : key_eqb a b = key_eqb b a.
Proof.
  destruct (key_eqb a b) eqn:E; symmetry.
  - apply key_eqb_eq. symmetry. apply key_eqb_eq. exact E.
  - apply key_eqb_neq. intro H. apply key_eqb_neq in E. congruence.
Qed.

Lemma dict_get_set_same (k : Key) (v : St.t) (d : dict) :
  dict_get k (dict_set k v d) = Some v.
Proof.
  induction d as [|[k' w] d IH]; cbn.
  - rewrite key_eqb_refl. reflexivity.
  - destruct (key_eqb k k') eqn:E; cbn; rewrite E; [reflexivity | exact IH].
Qed.

Lemma dict_get_set_other (k k' : Key) (v : St.t) (d : dict) :
  key_eqb k' k = false -> dict_get k' (dict_set k v d) = dict_get k' d.
Proof.
  intros Hne. induction d as [|[k0 w] d IH]; cbn.
  - rewrite Hne. reflexivity.
  - destruct (key_eqb k k0) eqn:E; cbn.
    + apply key_eqb_eq in E. subst k0. rewrite Hne. reflexivity.
    + rewrite IH. reflexivity.
Qed.

Lemma dict_get_del_same (k : Key) (d : dict) : dict_get k (dict_del k d) = None.
Proof.
  unfold dict_del.
  induction d as [|[k' w] d IH]; cbn; [reflexivity|].
  destruct (key_eqb k k') eqn:E; cbn; [exact IH | rewrite E; exact IH].
Qed.

Lemma dict_get_del_other (k k' : Key) (d : dict) :
  key_eqb k' k = false -> dict_get k' (dict_del k d) = dict_get k' d.
Proof.
  intros Hne. unfold dict_del.
  induction d as [|[k0 w] d IH]; cbn; [reflexivity|].
  destruct (key_eqb k k0) eqn:E; cbn.
  - apply key_eqb_eq in E. subst k0. rewrite Hne. exact IH.
  - rewrite IH. reflexivity.
Qed.

Lemma dict_getitem_set_same (k : Key) (v : St.t) (d : dict) :
  dict_getitem k (dict_set k v d) = Ok v.
Proof. unfold dict_getitem. rewrite dict_get_set_same. reflexivity. Qed.

Lemma updates_get_other (key k : Key) (P : St.t -> Prop) (d d' : dict) :
  updates key P d d' -> key_eqb k key = false -> dict_get k d' = dict_get k d.
Proof.
  intros U Hne. induction U as [|d' v U IH HP|d' U IH].
  - reflexivity.
  - rewrite dict_get_set_other; assumption.
  - rewrite dict_get_del_other; assumption.
Qed.

Lemma in_dict_set (k : Key) (v : St.t) (d : dict) (kv : Key * St.t) :
  In kv (dict_set k v d) -> In kv d \/ kv = (k, v).
Proof.
  induction d as [|[k' w] d IH]; cbn.
  - intros [<-|[]]. right. reflexivity.
  - destruct (key_eqb k k') eqn:E; cbn.
    + apply key_eqb_eq in E. subst k'. intros [<-|H]; auto.
    + intros [<-|H]; auto. destruct (IH H); auto.
Qed.

Lemma map_fst_dict_set (k : Key) (v : St.t) (d : dict) :
  map fst (dict_set k v d) =
  if dict_mem k d then map fst d else map fst d ++ [k].
Proof.
  unfold dict_mem. induction d as [|[k' w] d IH]; cbn; [reflexivity|].
  destruct (key_eqb k k') eqn:E; cbn; [reflexivity|].
  rewrite IH. destruct (dict_get k d); reflexivity.
Qed.

Lemma dict_get_none_not_in (k : Key) (d : dict) :
  dict_get k d = None -> ~ In k (map fst d).
Proof.
  induction d as [|[k' w] d IH]; cbn; [tauto|].
  destruct (key_eqb k k') eqn:E; [discriminate|].
  intros H [->|Hin]; [|exact (IH H Hin)].
  rewrite key_eqb_refl in E. discriminate.
Qed.

Lemma dict_ok_set (k : Key) (v : St.t) (d : dict) :
  St.key v = k -> dict_ok d -> dict_ok (dict_set k v d).
Proof.
  intros Hk [Hnd Hall]. split.
  - rewrite map_fst_dict_set. unfold dict_mem.
    destruct (dict_get k d) eqn:E; [exact Hnd|].
    apply NoDup_app; [exact Hnd | repeat constructor; intros [] | ].
    intros x Hx [<-|[]]. exact (dict_get_none_not_in _ _ E Hx).
  - apply Forall_forall. intros kv Hin.
    destruct (in_dict_set _ _ _ _ Hin) as [H| ->].
    + rewrite Forall_forall in Hall. apply Hall. exact H.
    + exact Hk.
Qed.

Lemma dict_ok_del (k : Key) (d : dict) : dict_ok d -> dict_ok (dict_del k d).
Proof.
  intros [Hnd Hall]. unfold dict_del. split.
  - clear Hall. induction d as [|[k' w] d IH]; cbn; [constructor|].
    inversion Hnd as [|? ? Hni Hnd']; subst.
    destruct (key_eqb k k'); cbn; [apply IH; exact Hnd'|].
    constructor; [|apply IH; exact Hnd'].
    intros Hin. apply Hni. apply in_map_iff in Hin.
    destruct Hin as [x [Hx Hin]]. apply filter_In in Hin.
    apply in_map_iff. exists x. tauto.
  - apply Forall_forall. intros kv Hin. apply filter_In in Hin.
    rewrite Forall_forall in Hall. apply Hall. tauto.
Qed.

Lemma updates_ok (key : Key) (P : St.t -> Prop) (d d' : dict) :
  updates key P d d' -> (forall v, P v -> St.key v = key) ->
  dict_ok d -> dict_ok d'.
Proof.
  intros U HP Hok. induction U as [|d' v U IH Hv|d' U IH].
  - exact Hok.
  - apply dict_ok_set; auto.
  - apply dict_ok_del; auto.
Qed.

Lemma dict_ok_get (k : Key) (st : St.t) (d : dict) :
  dict_ok d -> dict_get k d = Some st -> St.key st = k.
Proof.
  intros [_ Hall]. induction d as [|[k' w] d IH]; cbn; [discriminate|].
  inversion Hall as [|? ? Hk Hall']; subst. cbn in Hk.
  destruct (key_eqb k k') eqn:E.
  - intros [= ->]. apply key_eqb_eq in E. congruence.
  - apply IH. exact Hall'.
Qed.

Lemma in_dict_get (k : Key) (st : St.t) (d : dict) :
  dict_ok d -> In (k, st) d -> dict_get k d = Some st.
Proof.
  intros [Hnd _]. induction d as [|[k' w] d IH]; cbn; [tauto|].
  inversion Hnd as [|? ? Hni Hnd']; subst. intros [[= -> ->]|Hin].
  - rewrite key_eqb_refl. reflexivity.
  - destruct (key_eqb k k') eqn:E; [|exact (IH Hnd' Hin)].
    apply key_eqb_eq in E. subst k'. contradiction Hni.
    apply in_map_iff. exists (k, st). auto.
Qed.

(** ** Floats *)

Lemma is_flat_zero : is_flat 0 = true.
Proof. reflexivity. Qed.

Lemma Prim2SF_zero : Prim2SF 0 = S754_zero false.
Proof. reflexivity. Qed.

(** A float strictly below zero is not strictly above it. *)
Lemma ltb_zero_asym (x : float) : (x <? 0) = true -> (0 <? x) = false.
Proof.
  rewrite !ltb_spec, Prim2SF_zero.
  destruct (Prim2SF x) as [s|s| |s m e]; try destruct s; cbn; congruence.
Qed.

(** [abs] never returns a float strictly below zero. *)
Lemma abs_not_negative (x : float) : (abs x <? 0) = false.
Proof.
  rewrite ltb_spec, abs_spec, Prim2SF_zero.
  destruct (Prim2SF x) as [s|s| |s m e]; reflexivity.
Qed.

(** The floats that compare equal to zero are the two zeros. *)
Lemma eqb_zero_cases (x : float) : (x =? 0) = true -> x = 0 \/ x = -0.
Proof.
  rewrite FloatAxioms.eqb_spec, Prim2SF_zero. intros H.
  rewrite <- (SF2Prim_Prim2SF x).
  destruct (Prim2SF x) as [s|s| |s m e]; try destruct s; cbn in H;
    try discriminate; [right | left]; reflexivity.
Qed.

(** Adding a float to [0.0] gives a float that compares equal to it. *)
Lemma add_zero_l_eqb (c : float) : is_nan c = false -> (0 + c =? c) = true.
Proof.
  unfold is_nan. rewrite negb_false_iff, !FloatAxioms.eqb_spec, add_spec, Prim2SF_zero.
  destruct (Prim2SF c) as [s|s| |s m e]; try destruct s; cbn; auto.
Qed.

(** [fillna(0.0)] leaves no [nan]. *)
Lemma fillna0_not_nan (f : float) : is_nan (fillna0 f) = false.
Proof.
  unfold fillna0. destruct (is_nan f) eqn:E; [reflexivity | exact E].
Qed.

(** The sign of a rounded value is the sign it was given. *)
Lemma binary_round_aux_sign (prec emax : Z) (sx : bool) (mx ex : Z)
    (lx : location) :
  match binary_round_aux prec emax sx mx ex lx with
  | S754_zero s | S754_infinity s | S754_finite s _ _ => s = sx
  | S754_nan => True
  end.
Proof.
  unfold binary_round_aux.
  destruct (shr_fexp prec emax mx ex lx) as [mrs' e'].
  destruct (shr_fexp prec emax _ e' loc_Exact) as [mrs'' e''].
  destruct (shr_m mrs''); [reflexivity | | exact I].
  destruct (e'' <=? emax - prec)%Z; reflexivity.
Qed.

Lemma sf_not_negative_cases (s : spec_float) :
  sf_not_negative s <->
  match s with
  | S754_infinity b | S754_finite b _ _ => b = false
  | _ => True
  end.
Proof.
  unfold sf_not_negative.
  destruct s as [[|]|[|]| |[|] m e]; cbn; intuition congruence.
Qed.

Lemma binary_round_aux_not_negative (prec emax : Z) (mx ex : Z) (lx : location) :
  sf_not_negative (binary_round_aux prec emax false mx ex lx).
Proof.
  pose proof (binary_round_aux_sign prec emax false mx ex lx) as H.
  unfold sf_not_negative.
  destruct (binary_round_aux prec emax false mx ex lx); try subst s; reflexivity.
Qed.

Lemma SFmul_not_negative (prec emax : Z) (x y : spec_float) :
  sf_not_negative x -> sf_not_negative y -> sf_not_negative (SFmul prec emax x y).
Proof.
  rewrite !sf_not_negative_cases.
  destruct x as [sx|sx| |sx mx ex], y as [sy|sy| |sy my ey]; cbn [SFmul];
    intros Hx Hy; try subst sx; try subst sy; try exact I; try reflexivity.
  apply sf_not_negative_cases. apply binary_round_aux_not_negative.
Qed.

Lemma SFadd_not_negative (prec emax : Z) (x y : spec_float) :
  sf_not_negative x -> sf_not_negative y -> sf_not_negative (SFadd prec emax x y).
Proof.
  rewrite !sf_not_negative_cases.
  destruct x as [sx|sx| |sx mx ex], y as [sy|sy| |sy my ey]; cbn [SFadd];
    intros Hx Hy; try subst sx; try subst sy; try exact I; try reflexivity;
    try (destruct sx; exact I); try (destruct sy; exact I);
    try (destruct sx, sy; exact I).
  apply sf_not_negative_cases. cbn [cond_Zopp].
  unfold binary_normalize.
  destruct (Z.pos _ + Z.pos _)%Z eqn:E; try lia.
  unfold binary_round.
  match goal with
  | |- context [shl_align ?m ?e ?e'] => destruct (shl_align m e e')
  end.
  apply binary_round_aux_not_negative.
Qed.

Lemma not_negative_spec (x : float) :
  (x <? 0) = false <-> sf_not_negative (Prim2SF x).
Proof. unfold sf_not_negative. rewrite ltb_spec. reflexivity. Qed.

(** A product and a sum of floats that are not below zero are not below
    zero (they may be [nan]). *)
Lemma mul_not_negative (x y : float) :
  (x <? 0) = false -> (y <? 0) = false -> (x * y <? 0) = false.
Proof.
  rewrite !not_negative_spec, mul_spec. apply SFmul_not_negative.
Qed.

Lemma add_not_negative (x y : float) :
  (x <? 0) = false -> (y <? 0) = false -> (x + y <? 0) = false.
Proof.
  rewrite !not_negative_spec, add_spec. apply SFadd_not_negative.
Qed.

(** ** One row, one key *)

Ltac solve_updates :=
  repeat first
    [ apply updates_del
    | apply updates_set; [| first [left; reflexivity | right; reflexivity] ]
    | apply updates_refl ].

Lemma settle_row_key_settle (positions : list Pos.t) (state : dict)
    (st0 : St.t) (row : Row.t) (q : float) :
  exists state',
    settle_row positions state st0 row q =
      Ok (positions ++ fst (key_settle st0 row q), state') /\
    dict_get (row_key row) state' = snd (key_settle st0 row q) /\
    updates (row_key row)
      (fun v => St.key v = row_key row \/ St.key v = St.key st0) state state'.
Proof.
  unfold settle_row, key_settle, start_state, flush_if_closed.
  set (key := row_key row).
  destruct (crosses_zero (St.net_qty st0) (St.net_qty st0 + q)) eqn:Hflip.
  - rewrite !dict_getitem_set_same. cbn [bind St.net_qty close_at_flip].
    rewrite is_flat_zero. cbn [bind].
    rewrite !dict_getitem_set_same. cbn [bind St.net_qty close_at_flip].
    rewrite is_flat_zero.
    rewrite !dict_getitem_set_same. cbn [bind St.net_qty open_leftover].
    destruct (is_flat (St.net_qty st0 + q)) eqn:Hflat; cbn [fst snd].
    + eexists. split; [|split].
      * rewrite <- app_assoc. reflexivity.
      * apply dict_get_del_same.
      * solve_updates.
    + eexists. split; [|split].
      * reflexivity.
      * apply dict_get_set_same.
      * solve_updates.
  - cbn [bind St.net_qty apply_fill].
    destruct (is_flat (St.net_qty st0 + q)) eqn:Hflat; cbn [fst snd].
    + rewrite !dict_getitem_set_same. cbn [bind St.net_qty set_close_time apply_fill].
      rewrite Hflat.
      eexists. split; [|split].
      * reflexivity.
      * apply dict_get_del_same.
      * solve_updates.
    + eexists. split; [|split].
      * rewrite app_nil_r. reflexivity.
      * apply dict_get_set_same.
      * solve_updates.
Qed.

Lemma updates_weaken (key : Key) (P Q : St.t -> Prop) (d d' : dict) :
  (forall v, P v -> Q v) -> updates key P d d' -> updates key Q d d'.
Proof.
  intros HPQ U. induction U; [apply updates_refl | apply updates_set; auto
                             | apply updates_del; auto].
Qed.

Lemma updates_trans (key : Key) (P : St.t -> Prop) (d d1 d2 : dict) :
  updates key P d d1 -> updates key P d1 d2 -> updates key P d d2.
Proof.
  intros U1 U2. induction U2; [exact U1 | apply updates_set; auto
                               | apply updates_del; auto].
Qed.

Lemma process_row_key_step (positions : list Pos.t) (state : dict) (row : Row.t) :
  exists state',
    process_row (positions, state) row =
      Ok (positions ++ fst (key_step (dict_get (row_key row) state) row), state') /\
    dict_get (row_key row) state' =
      snd (key_step (dict_get (row_key row) state) row) /\
    updates (row_key row) (stored_by state row) state state'.
Proof.
  unfold process_row, key_step, begin_state, start_state, dict_mem.
  set (key := row_key row). set (q := _signed_qty row).
  destruct (dict_get key state) as [st|] eqn:Hget.
  - unfold dict_getitem at 1. rewrite Hget. cbn [bind].
    destruct (is_flat (St.net_qty st)) eqn:Hflat.
    + rewrite dict_getitem_set_same. cbn [bind].
      destruct (settle_row_key_settle positions
                  (dict_set key (new_state row q) state) (new_state row q) row q)
        as [state' [Hrun [Hget' Hupd]]].
      exists state'. split; [exact Hrun | split; [exact Hget'|]].
      apply updates_trans with (d1 := dict_set key (new_state row q) state).
      * apply updates_set; [apply updates_refl | left; reflexivity].
      * revert Hupd. apply updates_weaken. intros v [H|H]; left; exact H.
    + cbn [bind].
      destruct (settle_row_key_settle positions state st row q)
        as [state' [Hrun [Hget' Hupd]]].
      exists state'. split; [exact Hrun | split; [exact Hget'|]].
      revert Hupd. apply updates_weaken. intros v [H|H]; [left; exact H|].
      right. exists st. split; [exact Hget | exact H].
  - rewrite dict_getitem_set_same. cbn [bind St.net_qty new_state].
    rewrite is_flat_zero. rewrite dict_getitem_set_same. cbn [bind].
    destruct (settle_row_key_settle positions
                (dict_set key (new_state row q) (dict_set key (new_state row q) state))
                (new_state row q) row q)
      as [state' [Hrun [Hget' Hupd]]].
    exists state'. split; [exact Hrun | split; [exact Hget'|]].
    apply updates_trans
      with (d1 := dict_set key (new_state row q) (dict_set key (new_state row q) state)).
    + apply updates_set; [apply updates_set; [apply updates_refl|] |]; left; reflexivity.
    + revert Hupd. apply updates_weaken. intros v [H|H]; left; exact H.
Qed.

(** ** The signed-quantity resolver *)

(** C2.  The signed delta of a fill: for position side LONG, [+qty] on BUY
    and [-qty] on SELL; for SHORT, [+qty] on SELL and [-qty] on BUY; for
    BOTH, a missing label or any other value, [+qty] on BUY and [-qty] on
    SELL, the net-mode accounting. *)
Theorem signed_qty_by_mode (row : Row.t) :
  (Row.positionSide row = Some "LONG" ->
     (Row.side row = "BUY" -> _signed_qty row = Row.qty row) /\
     (Row.side row = "SELL" -> _signed_qty row = - Row.qty row)) /\
  (Row.positionSide row = Some "SHORT" ->
     (Row.side row = "SELL" -> _signed_qty row = Row.qty row) /\
     (Row.side row = "BUY" -> _signed_qty row = - Row.qty row)) /\
  (Row.positionSide row = Some "BOTH" \/
   Row.positionSide row = None \/
   (exists ps, Row.positionSide row = Some ps /\ ps <> "LONG" /\ ps <> "SHORT") ->
     (Row.side row = "BUY" -> _signed_qty row = Row.qty row) /\
     (Row.side row = "SELL" -> _signed_qty row = - Row.qty row)).
Proof.
  unfold _signed_qty, Row.get_positionSide.
  split; [|split].
  - intros ->. split; intros ->; reflexivity.
  - intros ->. split; intros ->; reflexivity.
  - intros [-> | [-> | [ps [-> [HL HS]]]]].
    + split; intros ->; reflexivity.
    + split; intros ->; reflexivity.
    + apply String.eqb_neq in HL, HS. rewrite HL, HS.
      split; intros ->; reflexivity.
Qed.



Lemma signed_qty_by_mode_witness :
  _signed_qty row_long_buy = 2 /\ _signed_qty row_odd_sell = -2.
Proof.
  split.
  - destruct (signed_qty_by_mode row_long_buy) as [H _].
    destruct (H eq_refl) as [H1 _]. exact (H1 eq_refl).
  - destruct (signed_qty_by_mode row_odd_sell) as [_ [_ H]].
    assert (Hps : Row.positionSide row_odd_sell = Some "BOTH" \/
                  Row.positionSide row_odd_sell = None \/
                  (exists ps, Row.positionSide row_odd_sell = Some ps /\
                              ps <> "LONG" /\ ps <> "SHORT")).
    { right. right. exists "HEDGE". repeat split; discriminate. }
    destruct (H Hps) as [_ H2]. exact (H2 eq_refl).
Defined.

(** The resolver returns the quantity or its opposite. *)
Lemma signed_qty_cases (row : Row.t) :
  _signed_qty row = Row.qty row \/ _signed_qty row = - Row.qty row.
Proof.
  unfold _signed_qty.
  destruct (Row.get_positionSide row =? "LONG")%string;
    [|destruct (Row.get_positionSide row =? "SHORT")%string];
    match goal with |- context [if ?b then _ else _] => destruct b end; auto.
Qed.

(** ** Flips *)

(** C1.  A fill that carries the net quantity of the live state of its key
    from strictly positive to strictly negative, or the reverse, closes
    that state at the fill's time and appends its record, whose sums
    include the whole commission and realized P&L of the fill; and it opens
    a new state for the key, opened at the fill's time with the leftover as
    opened quantity, price times the leftover's size as entry notional, one
    fill, and zero commission and realized P&L.  (When the leftover is
    itself below the threshold, that new state is flushed in the same
    step.) *)
Theorem flip_closes_and_reopens (positions : list Pos.t) (state : dict)
    (row : Row.t) (st : St.t) :
  let new_net := St.net_qty st + _signed_qty row in
  dict_get (row_key row) state = Some st ->
  is_flat (St.net_qty st) = false ->
  ((0 <? St.net_qty st) = true /\ (new_net <? 0) = true) \/
  ((St.net_qty st <? 0) = true /\ (0 <? new_net) = true) ->
  exists closed st2 state',
    process_row (positions, state) row =
      Ok (positions ++ closed ::
            (if is_flat new_net then [closed_record st2] else []), state') /\
    dict_get (row_key row) state' =
      (if is_flat new_net then None else Some st2) /\
    (Pos.key closed = St.key st /\
     Pos.open_time closed = St.open_time st /\
     Pos.close_time closed = Some (Row.time row) /\
     Pos.commission closed = St.commission st + Row.commission row /\
     Pos.realizedPnl closed = St.realizedPnl st + Row.realizedPnl row /\
     Pos.fills closed = (St.fills st + 1)%Z) /\
    (St.key st2 = row_key row /\
     St.open_time st2 = Row.time row /\
     St.close_time st2 = None /\
     St.direction st2 = (if 0 <? new_net then LONG else SHORT) /\
     St.net_qty st2 = new_net /\
     St.qty_opened st2 = new_net /\
     St.entry_notional st2 = Row.price row * abs new_net /\
     St.max_abs_qty st2 = abs new_net /\
     St.fills st2 = 1%Z /\
     St.commission st2 = 0 /\
     St.realizedPnl st2 = 0).
Proof.
  intros new_net Hget Hlive Hflip.
  assert (Hcross : crosses_zero (St.net_qty st) new_net = true).
  { unfold crosses_zero. destruct Hflip as [[-> ->] | [-> ->]];
      [reflexivity | apply orb_true_r]. }
  destruct (process_row_key_step positions state row) as [state' [Hrun [Hget' _]]].
  rewrite Hget in Hrun, Hget'.
  unfold key_step, begin_state in Hrun, Hget'. rewrite Hlive in Hrun, Hget'.
  unfold key_settle in Hrun, Hget'. fold new_net in Hrun, Hget'.
  rewrite Hcross in Hrun, Hget'.
  eexists _, _, state'. split; [|split; [|split]].
  - rewrite Hrun. destruct (is_flat new_net); reflexivity.
  - rewrite Hget'. destruct (is_flat new_net); reflexivity.
  - repeat split.
  - repeat split.
Qed.



Lemma flip_closes_and_reopens_witness :
  exists closed st2 state',
    process_row ([], [(("BTCUSDT", "BOTH"), st_long_one)]) row_sell_three =
      Ok ([closed], state') /\
    dict_get ("BTCUSDT", "BOTH") state' = Some st2 /\
    Pos.commission closed = 0.25 /\ Pos.realizedPnl closed = 20 /\
    St.qty_opened st2 = -2 /\ St.entry_notional st2 = 220 /\
    St.commission st2 = 0 /\ St.realizedPnl st2 = 0 /\ St.fills st2 = 1%Z.
Proof.
  destruct (flip_closes_and_reopens [] [(("BTCUSDT", "BOTH"), st_long_one)]
              row_sell_three (st := st_long_one))
    as [closed [st2 [state' [Hrun [Hget [Hc Hs]]]]]].
  - reflexivity.
  - reflexivity.
  - left. split; reflexivity.
  - exists closed, st2, state'.
    destruct Hc as [_ [_ [_ [Hcom [Hpnl _]]]]].
    destruct Hs as [_ [_ [_ [_ [_ [Hq [Hn [_ [Hf [Hc0 Hp0]]]]]]]]]].
    repeat split; try assumption.
Defined.

(** ** Fills of zero quantity *)

(** A cell that [pd.to_numeric] cannot read ends as [0.0]. *)
Lemma unparseable_is_zero (s : string) : fillna0 (to_numeric_coerce (Text s)) = 0.
Proof. reflexivity. Qed.

Lemma signed_qty_of_zero (row : Row.t) :
  (Row.qty row =? 0) = true -> _signed_qty row = 0 \/ _signed_qty row = -0.
Proof.
  intros H. apply eqb_zero_cases in H.
  destruct (signed_qty_cases row) as [-> | ->]; destruct H as [-> | ->]; auto.
Qed.

Lemma key_settle_zero (row : Row.t) (q : float) :
  q = 0 \/ q = -0 ->
  key_settle (new_state row q) row q =
    ([closed_record
        (set_close_time (apply_fill (new_state row q) row q) (Row.time row))],
     None) /\
  St.direction (new_state row q) = SHORT /\
  St.qty_opened (apply_fill (new_state row q) row q) = 0 /\
  St.entry_notional (apply_fill (new_state row q) row q) = 0.
Proof.
  intros [-> | ->]; repeat split.
Qed.

(** C10.  A fill of zero quantity (an unreadable quantity is coerced to
    zero) that finds its key absent or flat opens and at once closes a
    degenerate position: one record is appended to the closed positions,
    with direction SHORT, entry quantity and entry VWAP zero, open time and
    close time the fill's time, one fill, and the fill's commission and
    realized P&L as its sums. *)
Theorem zero_qty_fill_degenerate (positions : list Pos.t) (state : dict)
    (row : Row.t) :
  (dict_get (row_key row) state = None \/
   exists st, dict_get (row_key row) state = Some st /\
              is_flat (St.net_qty st) = true) ->
  (Row.qty row =? 0) = true ->
  is_nan (Row.commission row) = false ->
  is_nan (Row.realizedPnl row) = false ->
  (forall (raw : Raw.t) (s : string),
      Raw.qty raw = Text s -> Row.qty (normalize raw) = 0) /\
  exists r state',
    process_row (positions, state) row = Ok (positions ++ [r], state') /\
    dict_get (row_key row) state' = None /\
    Pos.key r = row_key row /\
    Pos.direction r = SHORT /\
    Pos.entry_qty r = 0 /\
    Pos.entry_vwap r = 0 /\
    Pos.open_time r = Row.time row /\
    Pos.close_time r = Some (Row.time row) /\
    Pos.fills r = 1%Z /\
    (Pos.commission r =? Row.commission row) = true /\
    (Pos.realizedPnl r =? Row.realizedPnl row) = true.
Proof.
  intros Hkey Hqty Hc Hp. split.
  { intros raw s H. cbn. rewrite H. reflexivity. }
  destruct (process_row_key_step positions state row) as [state' [Hrun [Hget' _]]].
  assert (Hbegin : begin_state (dict_get (row_key row) state) row =
                   new_state row (_signed_qty row)).
  { unfold begin_state. destruct Hkey as [-> | [st [-> ->]]]; reflexivity. }
  unfold key_step in Hrun, Hget'. rewrite Hbegin in Hrun, Hget'.
  destruct (key_settle_zero row (signed_qty_of_zero row Hqty))
    as [Hsettle [Hdir [Hq Hn]]].
  rewrite Hsettle in Hrun, Hget'. cbn [fst snd] in Hrun, Hget'.
  eexists _, state'. split; [exact Hrun | split; [exact Hget'|]].
  unfold closed_record.
  cbn [Pos.key Pos.symbol Pos.positionSide Pos.direction Pos.entry_qty
       Pos.entry_vwap Pos.open_time Pos.close_time Pos.fills Pos.commission
       Pos.realizedPnl set_close_time St.symbol St.positionSide St.direction
       St.open_time St.close_time St.fills St.commission St.realizedPnl
       St.qty_opened St.entry_notional].
  rewrite Hq, Hn.
  repeat split.
  - exact Hdir.
  - apply add_zero_l_eqb. exact Hc.
  - apply add_zero_l_eqb. exact Hp.
Qed.


Lemma zero_qty_fill_degenerate_witness :
  exists r state',
    process_row ([], []) row_zero_qty = Ok ([r], state') /\
    Pos.direction r = SHORT /\ Pos.entry_qty r = 0 /\
    Pos.close_time r = Some 7%Z /\ Pos.fills r = 1%Z /\
    (Pos.commission r =? 0.5) = true.
Proof.
  destruct (zero_qty_fill_degenerate [] [] row_zero_qty)
    as [_ [r [state' [Hrun [_ [_ [Hd [Hq [_ [_ [Hc [Hf [Hcom _]]]]]]]]]]]]].
  - left. reflexivity.
  - reflexivity.
  - reflexivity.
  - reflexivity.
  - exists r, state'. repeat split; assumption.
Defined.

(** ** The insertion sort *)

Section SortFacts.
Variable A : Type.
Variable leb : A -> A -> bool.
Hypothesis leb_total : forall a b, leb a b = false -> leb b a = true.
Hypothesis leb_trans :
  forall a b c, leb a b = true -> leb b c = true -> leb a c = true.

Lemma insert_perm (x : A) (l : list A) : Permutation (insert leb x l) (x :: l).
Proof.
  induction l as [|y l IH]; cbn; [reflexivity|].
  destruct (leb x y); [reflexivity|].
  rewrite IH. apply perm_swap.
Qed.

Lemma sort_perm (l : list A) : Permutation (sort leb l) l.
Proof.
  induction l as [|x l IH]; cbn; [reflexivity|].
  rewrite insert_perm, IH. reflexivity.
Qed.

Lemma insert_sorted (x : A) (l : list A) :
  StronglySorted (le_of leb) l -> StronglySorted (le_of leb) (insert leb x l).
Proof.
  induction 1 as [|y l Hs IH Hall]; cbn.
  - repeat constructor.
  - destruct (leb x y) eqn:E.
    + constructor; [constructor; assumption|].
      constructor; [exact E|].
      rewrite Forall_forall in *. intros z Hz.
      apply leb_trans with (b := y); [exact E | apply Hall; exact Hz].
    + constructor; [exact IH|].
      rewrite Forall_forall in *. intros z Hz.
      apply (Permutation_in _ (insert_perm x l)) in Hz.
      destruct Hz as [<-|Hz]; [apply leb_total; exact E | apply Hall; exact Hz].
Qed.

Lemma sort_sorted (l : list A) : StronglySorted (le_of leb) (sort leb l).
Proof.
  induction l as [|x l IH]; cbn; [constructor | apply insert_sorted; exact IH].
Qed.

(** Filtering commutes with the sort: the sort is stable. *)
Lemma filter_insert (p : A -> bool) (x : A) (l : list A) :
  StronglySorted (le_of leb) l ->
  filter p (insert leb x l) =
  if p x then insert leb x (filter p l) else filter p l.
Proof.
  induction 1 as [|y l Hs IH Hall]; cbn.
  - destruct (p x); reflexivity.
  - destruct (leb x y) eqn:E; cbn.
    + destruct (p x) eqn:Px; destruct (p y) eqn:Py; cbn; rewrite ?E; try reflexivity.
      (* x is kept, y is dropped: x still goes in front *)
      assert (Hfront : forall l', Forall (le_of leb x) l' -> insert leb x l' = x :: l').
      { intros [|z l'] Hz; cbn; [reflexivity|].
        inversion Hz as [|? ? Hxz _]; subst. unfold le_of in Hxz. rewrite Hxz.
        reflexivity. }
      rewrite Hfront; [reflexivity|].
      apply Forall_forall. intros z Hz. apply filter_In in Hz.
      rewrite Forall_forall in Hall.
      apply leb_trans with (b := y); [exact E | apply Hall; tauto].
    + rewrite IH. destruct (p x) eqn:Px; destruct (p y) eqn:Py; cbn;
        rewrite ?E; reflexivity.
Qed.

Lemma filter_sort (p : A -> bool) (l : list A) :
  filter p (sort leb l) = sort leb (filter p l).
Proof.
  induction l as [|x l IH]; cbn; [reflexivity|].
  rewrite filter_insert by apply sort_sorted.
  rewrite IH. destruct (p x); reflexivity.
Qed.

(** Two sorted lists with the same elements are equal when no two
    distinct elements tie. *)
Lemma sorted_perm_unique (l1 l2 : list A) :
  StronglySorted (le_of leb) l1 -> StronglySorted (le_of leb) l2 -> Permutation l1 l2 ->
  (forall a b, In a l1 -> In b l1 -> leb a b = true -> leb b a = true -> a = b) ->
  l1 = l2.
Proof.
  intros S1. revert l2.
  induction S1 as [|x l1 S1 IH H1]; intros l2 S2 HP Hanti.
  - apply Permutation_nil in HP. congruence.
  - destruct S2 as [|y l2 S2 H2].
    + apply Permutation_sym, Permutation_nil in HP. discriminate.
    + assert (Hxy : x = y).
      { assert (Hx : In x (y :: l2))
          by (apply (Permutation_in _ HP); left; reflexivity).
        assert (Hy : In y (x :: l1))
          by (apply (Permutation_in _ (Permutation_sym HP)); left; reflexivity).
        destruct Hx as [->|Hx]; [reflexivity|].
        destruct Hy as [->|Hy]; [reflexivity|].
        rewrite Forall_forall in H1, H2.
        apply Hanti; [left; reflexivity | right; exact Hy | apply H1; exact Hy
                     | apply H2; exact Hx]. }
      subst y. f_equal. apply IH; [exact S2 | |].
      * apply Permutation_cons_inv in HP. exact HP.
      * intros a b Ha Hb. apply Hanti; right; assumption.
Qed.

Lemma sort_permutation (l l' : list A) :
  Permutation l l' ->
  (forall a b, In a l -> In b l -> leb a b = true -> leb b a = true -> a = b) ->
  sort leb l = sort leb l'.
Proof.
  intros HP Hanti. apply sorted_perm_unique.
  - apply sort_sorted.
  - apply sort_sorted.
  - rewrite !sort_perm. exact HP.
  - intros a b Ha Hb. apply Hanti; apply (Permutation_in _ (sort_perm l));
      assumption.
Qed.
End SortFacts.

(** Sorting commutes with a map that keeps the order. *)
Lemma sort_map (A B : Type) (lebA : A -> A -> bool) (lebB : B -> B -> bool)
    (f : A -> B) (l : list A) :
  (forall a b, lebB (f a) (f b) = lebA a b) ->
  sort lebB (map f l) = map f (sort lebA l).
Proof.
  intros Hf. induction l as [|x l IH]; cbn; [reflexivity|].
  rewrite IH. generalize (sort lebA l) as s.
  induction s as [|y s IHs]; cbn; [reflexivity|].
  rewrite Hf. destruct (lebA x y); cbn; [reflexivity | rewrite IHs; reflexivity].
Qed.

(** ** The order of the rows *)


Lemma order_compare_refl (A : Type) (cmp : A -> A -> comparison) (a : A) :
  order_compare cmp -> cmp a a = Eq.
Proof.
  intros O. pose proof (cmp_opp O a a) as H. destruct (cmp a a); cbn in H; congruence.
Qed.

Lemma order_compare_lex (A B : Type) (ca : A -> A -> comparison)
    (cb : B -> B -> comparison) :
  order_compare ca -> order_compare cb -> order_compare (lex_compare ca cb).
Proof.
  intros Oa Ob. split.
  - intros [a1 b1] [a2 b2]. unfold lex_compare. cbn [fst snd].
    rewrite (cmp_opp Oa a1 a2), (cmp_opp Ob b1 b2).
    destruct (ca a2 a1); reflexivity.
  - intros [a1 b1] [a2 b2]. unfold lex_compare. cbn [fst snd].
    destruct (ca a1 a2) eqn:Ea; try discriminate.
    intros Eb. apply (cmp_eq Oa) in Ea. apply (cmp_eq Ob) in Eb. congruence.
  - intros [a1 b1] [a2 b2] [a3 b3]. unfold lex_compare. cbn [fst snd].
    destruct (ca a1 a2) eqn:E12; try discriminate;
      destruct (ca a2 a3) eqn:E23; try discriminate; intros H1 H2.
    + apply (cmp_eq Oa) in E12, E23. subst a2 a3.
      rewrite (order_compare_refl a1 Oa). exact (cmp_lt_trans Ob _ _ _ H1 H2).
    + apply (cmp_eq Oa) in E12. subst a2. rewrite E23. reflexivity.
    + apply (cmp_eq Oa) in E23. subst a3. rewrite E12. reflexivity.
    + rewrite (cmp_lt_trans Oa _ _ _ E12 E23). reflexivity.
Qed.

Lemma order_compare_Z : order_compare Z.compare.
Proof.
  split.
  - intros a b. apply Z.compare_antisym.
  - intros a b. apply Z.compare_eq.
  - intros a b c. rewrite !Z.compare_lt_iff. lia.
Qed.

Lemma ascii_compare_lt_trans (a b c : Ascii.ascii) :
  Ascii.compare a b = Lt -> Ascii.compare b c = Lt -> Ascii.compare a c = Lt.
Proof.
  unfold Ascii.compare. rewrite !N.compare_lt_iff. apply N.lt_trans.
Qed.

Lemma ascii_compare_refl (a : Ascii.ascii) : Ascii.compare a a = Eq.
Proof. unfold Ascii.compare. apply N.compare_refl. Qed.

Lemma order_compare_string : order_compare String.compare.
Proof.
  split.
  - apply String.compare_antisym.
  - apply String.compare_eq_iff.
  - induction a as [|x a IH]; intros [|y b] [|z c]; cbn; try discriminate; auto.
    destruct (Ascii.compare x y) eqn:Exy; try discriminate;
      destruct (Ascii.compare y z) eqn:Eyz; try discriminate; intros H1 H2.
    + apply Ascii.compare_eq_iff in Exy, Eyz. subst y z.
      rewrite ascii_compare_refl. exact (IH _ _ H1 H2).
    + apply Ascii.compare_eq_iff in Exy. subst y. rewrite Eyz. reflexivity.
    + apply Ascii.compare_eq_iff in Eyz. subst z. rewrite Exy. reflexivity.
    + rewrite (ascii_compare_lt_trans _ _ _ Exy Eyz). reflexivity.
Qed.

Lemma order_compare_key : order_compare key_compare.
Proof.
  unfold key_compare.
  repeat apply order_compare_lex;
    first [apply order_compare_string | apply order_compare_Z].
Qed.

Lemma row_leb_total (a b : Row.t) : row_leb a b = false -> row_leb b a = true.
Proof.
  unfold row_leb. rewrite (cmp_opp order_compare_key (sort_key a) (sort_key b)).
  destruct (key_compare (sort_key b) (sort_key a)); cbn; congruence.
Qed.

Lemma row_leb_trans (a b c : Row.t) :
  row_leb a b = true -> row_leb b c = true -> row_leb a c = true.
Proof.
  unfold row_leb.
  destruct (key_compare (sort_key a) (sort_key b)) eqn:E1; try discriminate;
    destruct (key_compare (sort_key b) (sort_key c)) eqn:E2; try discriminate;
    intros _ _.
  - apply (cmp_eq order_compare_key) in E1. rewrite E1, E2. reflexivity.
  - apply (cmp_eq order_compare_key) in E1. rewrite E1, E2. reflexivity.
  - apply (cmp_eq order_compare_key) in E2. rewrite <- E2, E1. reflexivity.
  - rewrite (cmp_lt_trans order_compare_key _ _ _ E1 E2). reflexivity.
Qed.

(** Rows that tie in the order have the same sort key. *)
Lemma row_leb_antisym (a b : Row.t) :
  row_leb a b = true -> row_leb b a = true -> sort_key a = sort_key b.
Proof.
  unfold row_leb. rewrite (cmp_opp order_compare_key (sort_key b) (sort_key a)).
  destruct (key_compare (sort_key a) (sort_key b)) eqn:E; cbn; try discriminate.
  intros _ _. apply (cmp_eq order_compare_key). exact E.
Qed.

Lemma open_time_leb_total (a b : Pos.t) :
  open_time_leb a b = false -> open_time_leb b a = true.
Proof. unfold open_time_leb. rewrite Z.leb_gt, Z.leb_le. lia. Qed.

Lemma open_time_leb_trans (a b c : Pos.t) :
  open_time_leb a b = true -> open_time_leb b c = true -> open_time_leb a c = true.
Proof. unfold open_time_leb. rewrite !Z.leb_le. lia. Qed.

(** ** The fold *)

Lemma key_settle_records (st0 : St.t) (row : Row.t) (q : float) :
  Forall (fun r => exists st, r = closed_record st) (fst (key_settle st0 row q)).
Proof.
  unfold key_settle.
  repeat match goal with |- context [if ?b then _ else _] => destruct b end;
    cbn [fst]; repeat constructor; eexists; reflexivity.
Qed.

Lemma key_settle_keys (st0 : St.t) (row : Row.t) (q : float) :
  St.key st0 = row_key row ->
  Forall (fun r => Pos.key r = row_key row) (fst (key_settle st0 row q)) /\
  (forall st', snd (key_settle st0 row q) = Some st' -> St.key st' = row_key row).
Proof.
  intros Hk. unfold key_settle.
  repeat match goal with |- context [if ?b then _ else _] => destruct b end;
    cbn [fst snd]; (split; [repeat constructor; try exact Hk |]);
    try discriminate; intros st' [= <-]; try exact Hk; reflexivity.
Qed.

Lemma key_settle_nonempty (st0 : St.t) (row : Row.t) (q : float) :
  fst (key_settle st0 row q) <> [] \/ snd (key_settle st0 row q) <> None.
Proof.
  unfold key_settle.
  repeat match goal with |- context [if ?b then _ else _] => destruct b end;
    cbn [fst snd]; first [left; discriminate | right; discriminate].
Qed.

Lemma begin_state_key (o : option St.t) (row : Row.t) :
  (forall st, o = Some st -> St.key st = row_key row) ->
  St.key (begin_state o row) = row_key row.
Proof.
  intros H. unfold begin_state. destruct o as [st|]; [|reflexivity].
  destruct (is_flat (St.net_qty st)); [reflexivity | apply H; reflexivity].
Qed.

(** What [process_row] does, for a dictionary that satisfies the
    invariant. *)
Lemma process_row_ok (positions : list Pos.t) (state : dict) (row : Row.t) :
  dict_ok state ->
  exists state',
    process_row (positions, state) row =
      Ok (positions ++ fst (key_step (dict_get (row_key row) state) row), state') /\
    dict_get (row_key row) state' =
      snd (key_step (dict_get (row_key row) state) row) /\
    (forall k, key_eqb k (row_key row) = false ->
               dict_get k state' = dict_get k state) /\
    dict_ok state' /\
    Forall (fun r => Pos.key r = row_key row)
      (fst (key_step (dict_get (row_key row) state) row)).
Proof.
  intros Hok.
  destruct (process_row_key_step positions state row) as [state' [Hrun [Hget U]]].
  exists state'. split; [exact Hrun | split; [exact Hget | split; [|split]]].
  - intros k Hk. exact (updates_get_other k U Hk).
  - apply (updates_ok U); [|exact Hok].
    intros v [H | [st [Hst H]]]; [exact H|].
    rewrite H. exact (dict_ok_get _ Hok Hst).
  - apply key_settle_keys. apply begin_state_key.
    intros st Hst. exact (dict_ok_get _ Hok Hst).
Qed.

(** A state that a row leaves in [state] is not flat. *)
Lemma key_settle_not_flat (st0 st' : St.t) (row : Row.t) (q : float) :
  snd (key_settle st0 row q) = Some st' -> is_flat (St.net_qty st') = false.
Proof.
  unfold key_settle.
  destruct (crosses_zero (St.net_qty st0) (St.net_qty st0 + q));
    destruct (is_flat (St.net_qty st0 + q)) eqn:E; cbn [snd];
    try discriminate; intros [= <-]; exact E.
Qed.

Lemma process_row_live_not_flat (acc acc' : list Pos.t * dict) (row : Row.t) :
  live_not_flat (snd acc) -> process_row acc row = Ok acc' ->
  live_not_flat (snd acc').
Proof.
  destruct acc as [p s]. cbn [snd]. intros Hlive H.
  destruct (process_row_key_step p s row) as [s' [Hrun [Hget U]]].
  rewrite Hrun in H. injection H as <-. cbn [snd].
  intros k st Hk. destruct (key_eqb k (row_key row)) eqn:E.
  - apply key_eqb_eq in E. subst k. rewrite Hget in Hk.
    exact (key_settle_not_flat _ _ _ Hk).
  - rewrite (updates_get_other k U E) in Hk. exact (Hlive k st Hk).
Qed.

(** The loop keeps every live state away from flat; this is the sense of
    "live" in the statements about one row below. *)
Lemma fold_rows_live_not_flat (l : list Row.t) :
  forall acc acc' : list Pos.t * dict,
    live_not_flat (snd acc) -> fold_rows l acc = Ok acc' ->
    live_not_flat (snd acc').
Proof.
  induction l as [|row l IH]; intros acc acc' Hlive H; cbn [fold_rows] in H.
  - injection H as <-. exact Hlive.
  - destruct (process_row acc row) as [acc1|e] eqn:E1; [|discriminate H].
    cbn [bind] in H.
    exact (IH _ _ (@process_row_live_not_flat acc acc1 row Hlive E1) H).
Qed.

Lemma dict_ok_nil : dict_ok [].
Proof. split; constructor. Qed.

Lemma dict_get_some_nonempty (k : Key) (d : dict) :
  dict_get k d <> None -> d <> [].
Proof. intros H ->. apply H. reflexivity. Qed.

(** The fold never raises; it only appends records made by
    [closed_record]; and after a row, a record or a live state exists. *)
Lemma fold_rows_ok (l : list Row.t) :
  forall (positions : list Pos.t) (state : dict),
    dict_ok state ->
    exists emitted state',
      fold_rows l (positions, state) = Ok (positions ++ emitted, state') /\
      dict_ok state' /\
      Forall (fun r => exists st, r = closed_record st) emitted /\
      (l <> [] -> emitted <> [] \/ state' <> []).
Proof.
  induction l as [|row l IH]; intros positions state Hok.
  - exists [], state. cbn. rewrite app_nil_r.
    split; [reflexivity | split; [exact Hok | split; [constructor|]]].
    intros H. contradiction H. reflexivity.
  - destruct (process_row_ok positions row Hok)
      as [state1 [Hrun [Hget [_ [Hok1 _]]]]].
    destruct (IH (positions ++ fst (key_step (dict_get (row_key row) state) row))
                state1 Hok1) as [emitted [state' [Hfold [Hok' [Hrec Hne]]]]].
    exists (fst (key_step (dict_get (row_key row) state) row) ++ emitted), state'.
    cbn [fold_rows]. rewrite Hrun. cbn [bind]. rewrite Hfold, app_assoc.
    split; [reflexivity | split; [exact Hok' | split]].
    + apply Forall_app. split; [apply key_settle_records | exact Hrec].
    + intros _. destruct l as [|row' l'].
      * cbn in Hfold. injection Hfold as Hpos ->.
        apply (f_equal (@List.length _)) in Hpos. rewrite !length_app in Hpos.
        destruct emitted; [|cbn in Hpos; lia]. rewrite app_nil_r.
        destruct (key_settle_nonempty (begin_state (dict_get (row_key row) state) row)
                    row (_signed_qty row)) as [H|H]; [left; exact H|].
        right. apply (dict_get_some_nonempty (row_key row)).
        rewrite Hget. exact H.
      * destruct Hne as [H|H]; [discriminate | | right; exact H].
        left. intros Happ. apply app_eq_nil in Happ. tauto.
Qed.

(** ** Assembling the output frame *)

Lemma rows_combine (positions open_positions : list Pos.t) :
  rows (combine positions open_positions) =
  match open_positions with
  | [] => positions
  | _ :: _ => map (Pos.set_status (Some CLOSED)) positions ++ open_positions
  end.
Proof. destruct open_positions; reflexivity. Qed.

Lemma open_time_label_combine (positions open_positions : list Pos.t) :
  has_label "open_time" (columns (combine positions open_positions)) =
  match positions, open_positions with
  | [], [] => false
  | _, _ => true
  end.
Proof. destruct positions, open_positions; reflexivity. Qed.

Lemma status_label_combine (positions open_positions : list Pos.t) :
  has_label "status" (columns (combine positions open_positions)) =
  match open_positions with
  | [] => false
  | _ :: _ => true
  end.
Proof. destruct positions, open_positions; reflexivity. Qed.

Lemma sort_nonempty (A : Type) (leb : A -> A -> bool) (l : list A) :
  l <> [] -> sort leb l <> [].
Proof.
  intros Hne Hs. apply Hne. apply Permutation_nil.
  rewrite <- Hs. apply sort_perm.
Qed.

(** Sorting a list that is in order leaves it as it is. *)
Lemma sort_sorted_id (A : Type) (leb : A -> A -> bool) (l : list A) :
  StronglySorted (le_of leb) l -> sort leb l = l.
Proof.
  induction 1 as [|x l _ IH Hall]; [reflexivity|].
  cbn [sort]. rewrite IH. destruct Hall as [|y l Hy _]; [reflexivity|].
  cbn [insert]. unfold le_of in Hy. rewrite Hy. reflexivity.
Qed.

(** Whatever algorithm the sort kind is, if it returns its argument
    permuted and in ascending order of [open_time], it is the sort of some
    [SortKind]. *)
Lemma sort_kind_complete (f : list Pos.t -> list Pos.t) :
  (forall l, Permutation (f l) l) ->
  (forall l, StronglySorted (le_of open_time_leb) (f l)) ->
  exists kind : SortKind, forall l, sort open_time_leb (arranges kind l) = f l.
Proof.
  intros Hp Hs. exists (mkSortKind f Hp). intros l. cbn [arranges].
  apply sort_sorted_id. apply Hs.
Qed.

(** The final sort returns the rows it is given, in some order. *)
Lemma final_sort_perm (kind : SortKind) (l : list Pos.t) :
  Permutation (sort open_time_leb (arranges kind l)) l.
Proof.
  etransitivity; [apply sort_perm | apply arranges_perm].
Qed.

(** The rows the loop runs over. *)
Lemma aggregate_unfold (quicksort : SortKind) (df : list Raw.t) :
  exists positions state,
    fold_rows (sort row_leb (map normalize df)) ([], []) = Ok (positions, state) /\
    dict_ok state /\
    Forall (fun r => exists st, r = closed_record st) positions /\
    (df <> [] -> positions <> [] \/ state <> []) /\
    aggregate_trades_to_positions quicksort df =
      sort_values_open_time quicksort (combine positions (open_positions_of state)).
Proof.
  destruct (fold_rows_ok (sort row_leb (map normalize df)) [] dict_ok_nil)
    as [positions [state [Hfold [Hok [Hrec Hne]]]]].
  cbn [app] in Hfold.
  exists positions, state. split; [exact Hfold | split; [exact Hok | split; [exact Hrec|]]].
  split.
  - intros Hdf. apply Hne. apply sort_nonempty.
    destruct df; [contradiction Hdf; reflexivity | discriminate].
  - unfold aggregate_trades_to_positions. cbv zeta.
    unfold dict in Hfold. rewrite Hfold. reflexivity.
Qed.

Lemma sort_values_open_time_ok (kind : SortKind)
    (positions open_positions : list Pos.t) :
  positions <> [] \/ open_positions <> [] ->
  sort_values_open_time kind (combine positions open_positions) =
    Ok {| columns := columns (combine positions open_positions);
          rows := sort open_time_leb
                    (arranges kind (rows (combine positions open_positions))) |}.
Proof.
  intros Hne. unfold sort_values_open_time. rewrite open_time_label_combine.
  destruct positions, open_positions; try reflexivity.
  destruct Hne as [H|H]; contradiction H; reflexivity.
Qed.

(** A non-empty frame of fills is aggregated without raising. *)
Lemma aggregate_nonempty_ok (quicksort : SortKind) (df : list Raw.t) :
  df <> [] ->
  exists positions state,
    fold_rows (sort row_leb (map normalize df)) ([], []) = Ok (positions, state) /\
    dict_ok state /\
    Forall (fun r => exists st, r = closed_record st) positions /\
    aggregate_trades_to_positions quicksort df =
      Ok {| columns := columns (combine positions (open_positions_of state));
            rows := sort open_time_leb
                      (arranges quicksort
                         (rows (combine positions (open_positions_of state)))) |}.
Proof.
  intros Hdf.
  destruct (aggregate_unfold quicksort df) as [positions [state [Hfold [Hok [Hrec [Hne Hagg]]]]]].
  exists positions, state. split; [exact Hfold | split; [exact Hok | split; [exact Hrec|]]].
  rewrite Hagg. apply sort_values_open_time_ok.
  destruct (Hne Hdf) as [H|H]; [left; exact H | right].
  destruct state; [contradiction H; reflexivity | discriminate].
Qed.

Lemma aggregate_ok_nonempty (quicksort : SortKind) (df : list Raw.t)
    (out : DataFrame) :
  aggregate_trades_to_positions quicksort df = Ok out -> df <> [].
Proof. intros H ->. discriminate H. Qed.

(** Every row of the output was made from a state by one of the two
    emitters; a closed record may have been given the status CLOSED. *)
Lemma combine_rows_emitted (positions : list Pos.t) (state : dict) (r : Pos.t) :
  Forall (fun r => exists st, r = closed_record st) positions ->
  In r (rows (combine positions (open_positions_of state))) ->
  exists st,
    r = closed_record st \/
    r = Pos.set_status (Some CLOSED) (closed_record st) \/
    r = open_record st.
Proof.
  intros Hrec Hin. rewrite rows_combine in Hin. rewrite Forall_forall in Hrec.
  destruct (open_positions_of state) as [|o os] eqn:Eo.
  - destruct (Hrec r Hin) as [st ->]. exists st. auto.
  - rewrite <- Eo in Hin. apply in_app_or in Hin. destruct Hin as [Hin|Hin].
    + apply in_map_iff in Hin. destruct Hin as [r0 [<- Hin]].
      destruct (Hrec r0 Hin) as [st ->]. exists st. auto.
    + unfold open_positions_of in Hin. apply in_map_iff in Hin.
      destruct Hin as [[k st] [<- _]]. exists st. auto.
Qed.

Lemma aggregate_rows_emitted (quicksort : SortKind) (df : list Raw.t)
    (out : DataFrame) (r : Pos.t) :
  aggregate_trades_to_positions quicksort df = Ok out -> In r (rows out) ->
  exists st,
    r = closed_record st \/
    r = Pos.set_status (Some CLOSED) (closed_record st) \/
    r = open_record st.
Proof.
  intros Hagg Hin.
  destruct (aggregate_nonempty_ok quicksort (@aggregate_ok_nonempty quicksort _ _ Hagg))
    as [positions [state [_ [_ [Hrec Hout]]]]].
  rewrite Hout in Hagg. injection Hagg as <-. cbn [rows] in Hin.
  apply (Permutation_in _ (final_sort_perm _ _)) in Hin.
  eapply combine_rows_emitted; eassumption.
Qed.

(** The aggregator's result, from the result of the fold. *)
Lemma aggregate_of_fold (kind : SortKind) (df : list Raw.t)
    (positions : list Pos.t) (state : dict) :
  fold_rows (sort row_leb (map normalize df)) ([], []) = Ok (positions, state) ->
  aggregate_trades_to_positions kind df =
    sort_values_open_time kind (combine positions (open_positions_of state)).
Proof.
  intros Hfold. unfold aggregate_trades_to_positions. cbv zeta.
  unfold dict in Hfold. rewrite Hfold. reflexivity.
Qed.

(** A frame of one row is sorted by every kind to itself. *)
Lemma arranges_single (kind : SortKind) (r : Pos.t) : arranges kind [r] = [r].
Proof.
  apply Permutation_length_1_inv. apply Permutation_sym. apply arranges_perm.
Qed.

(** ** The accumulators behind the records *)

Lemma key_settle_flushed (st0 : St.t) (row : Row.t) (q : float) :
  fst (key_settle st0 row q) = map closed_record (key_flushed st0 row q).
Proof.
  unfold key_settle, key_flushed.
  destruct (crosses_zero (St.net_qty st0) (St.net_qty st0 + q));
    destruct (is_flat (St.net_qty st0 + q)); reflexivity.
Qed.

(** The records the loop appends are the records of the accumulators it
    flushes. *)
Lemma fold_rows_flushed (l : list Row.t) :
  forall acc acc' : list Pos.t * dict,
    fold_rows l acc = Ok acc' ->
    fst acc' = fst acc ++ map closed_record (flushed_states l acc).
Proof.
  induction l as [|row l IH]; intros [p s] acc' H;
    cbn [fold_rows flushed_states] in *.
  - injection H as <-. cbn [fst map]. rewrite app_nil_r. reflexivity.
  - destruct (process_row_key_step p s row) as [s' [Hrun _]].
    rewrite Hrun in *. cbn [bind] in H.
    rewrite (IH _ _ H). cbn [fst snd].
    rewrite map_app, app_assoc. unfold key_step.
    rewrite key_settle_flushed. reflexivity.
Qed.

(** Every row of a returned frame is the record of an accumulator the
    loop flushed, or the open record of an accumulator left in [state]. *)
Lemma aggregate_rows_from (quicksort : SortKind) (df : list Raw.t)
    (out : DataFrame) :
  aggregate_trades_to_positions quicksort df = Ok out ->
  exists state,
    fold_rows (sort row_leb (map normalize df)) ([], []) =
      Ok (map closed_record (flushed_by df), state) /\
    dict_ok state /\
    forall r, In r (rows out) ->
      exists st,
        In st (flushed_by df) /\
          (r = closed_record st \/
           r = Pos.set_status (Some CLOSED) (closed_record st)) \/
        In st (map snd state) /\ r = open_record st.
Proof.
  intros Hagg.
  destruct (aggregate_nonempty_ok quicksort (@aggregate_ok_nonempty quicksort _ _ Hagg))
    as [positions [state [Hfold [Hok [_ Hout]]]]].
  pose proof (fold_rows_flushed _ _ Hfold) as Hpos. cbn [fst app] in Hpos.
  fold (flushed_by df) in Hpos. subst positions.
  exists state. split; [exact Hfold | split; [exact Hok|]].
  rewrite Hout in Hagg. injection Hagg as <-. cbn [rows].
  intros r Hin. apply (Permutation_in _ (final_sort_perm _ _)) in Hin.
  rewrite rows_combine in Hin.
  destruct (open_positions_of state) as [|o os] eqn:Eo.
  - apply in_map_iff in Hin. destruct Hin as [st [<- Hin]].
    exists st. left. auto.
  - rewrite <- Eo in Hin. apply in_app_or in Hin. destruct Hin as [Hin|Hin].
    + apply in_map_iff in Hin. destruct Hin as [r0 [<- Hin]].
      apply in_map_iff in Hin. destruct Hin as [st [<- Hin]].
      exists st. left. auto.
    + unfold open_positions_of in Hin. apply in_map_iff in Hin.
      destruct Hin as [[k st] [<- Hin]]. exists st. right.
      split; [|reflexivity]. apply in_map_iff. exists (k, st). auto.
Qed.

(** ** The emitted records *)

(** C3.  Every record of the output, closed or open, has
    [net_pnl_after_fees] equal to its [realizedPnl] minus its
    [commission]. *)
Theorem fee_identity (quicksort : SortKind) (df : list Raw.t)
    (out : DataFrame) (r : Pos.t) :
  aggregate_trades_to_positions quicksort df = Ok out ->
  In r (rows out) ->
  Pos.net_pnl_after_fees r = Pos.realizedPnl r - Pos.commission r.
Proof.
  intros Hagg Hin.
  destruct (@aggregate_rows_emitted quicksort df out r Hagg Hin) as [st [-> | [-> | ->]]];
    reflexivity.
Qed.

Lemma fee_identity_witness :
  exists out r,
    aggregate_trades_to_positions stable fills_round_trip = Ok out /\
    In r (rows out) /\
    Pos.realizedPnl r = 10 /\ Pos.commission r = 0.5 /\
    Pos.net_pnl_after_fees r = Pos.realizedPnl r - Pos.commission r.
Proof.
  eexists _, _. split; [vm_compute; reflexivity|].
  split; [left; reflexivity|].
  split; [reflexivity|]. split; [reflexivity|].
  eapply (@fee_identity stable fills_round_trip);
    [vm_compute; reflexivity | left; reflexivity].
Defined.

(** A fill strictly against the opening direction does not extend the
    position. *)
Lemma opposes_not_extends (st : St.t) (q : float) :
  opposes_opening st q = true -> extends_position st q = false.
Proof. apply ltb_zero_asym. Qed.

(** C4.  A fill whose signed delta is against the opening direction of the
    live state of its key leaves [qty_opened] and [entry_notional] of that
    state as they were, whether the state stays live or is closed by the
    fill; and every record of the output is made from an accumulator of
    the fold, one the loop flushed or one left in [state] at the end, and
    has [entry_qty] the absolute value of the [qty_opened] of that
    accumulator, and [entry_vwap] its [entry_notional] over [entry_qty]
    when [entry_qty] is positive, zero otherwise. *)
Theorem reducing_fill_keeps_entry :
  (forall (positions : list Pos.t) (state : dict) (row : Row.t) (st : St.t),
      dict_get (row_key row) state = Some st ->
      is_flat (St.net_qty st) = false ->
      opposes_opening st (_signed_qty row) = true ->
      exists st' positions' state',
        process_row (positions, state) row = Ok (positions', state') /\
        St.qty_opened st' = St.qty_opened st /\
        St.entry_notional st' = St.entry_notional st /\
        ((positions' = positions /\ dict_get (row_key row) state' = Some st') \/
         (exists rest, positions' = positions ++ closed_record st' :: rest))) /\
  (forall (quicksort : SortKind) (df : list Raw.t) (out : DataFrame),
      aggregate_trades_to_positions quicksort df = Ok out ->
      exists state,
        fold_rows (sort row_leb (map normalize df)) ([], []) =
          Ok (map closed_record (flushed_by df), state) /\
        forall r, In r (rows out) ->
          exists st,
            (In st (flushed_by df) /\
               (r = closed_record st \/
                r = Pos.set_status (Some CLOSED) (closed_record st)) \/
             In st (map snd state) /\ r = open_record st) /\
            Pos.entry_qty r = abs (St.qty_opened st) /\
            Pos.entry_vwap r =
              (if 0 <? Pos.entry_qty r
               then St.entry_notional st / Pos.entry_qty r
               else 0)).
Proof.
  split.
  - intros positions state row st Hget Hlive Hopp.
    apply opposes_not_extends in Hopp.
    destruct (process_row_key_step positions state row) as [state' [Hrun [Hget' _]]].
    rewrite Hget in Hrun, Hget'.
    unfold key_step, begin_state in Hrun, Hget'. rewrite Hlive in Hrun, Hget'.
    unfold key_settle in Hrun, Hget'.
    assert (Hq : forall t, St.qty_opened (apply_fill st row t) =
                           if extends_position st t then St.qty_opened st + t
                           else St.qty_opened st) by reflexivity.
    assert (Hn : forall t, St.entry_notional (apply_fill st row t) =
                           if extends_position st t
                           then St.entry_notional st + Row.price row * abs t
                           else St.entry_notional st) by reflexivity.
    specialize (Hq (_signed_qty row)). specialize (Hn (_signed_qty row)).
    rewrite Hopp in Hq, Hn.
    destruct (crosses_zero (St.net_qty st) (St.net_qty st + _signed_qty row)).
    + exists (close_at_flip (apply_fill st row (_signed_qty row)) (Row.time row)).
      eexists _, state'. split; [exact Hrun|].
      split; [exact Hq | split; [exact Hn|]]. right.
      destruct (is_flat (St.net_qty st + _signed_qty row)); cbn [fst];
        eexists; reflexivity.
    + destruct (is_flat (St.net_qty st + _signed_qty row)); cbn [fst snd] in *.
      * exists (set_close_time (apply_fill st row (_signed_qty row)) (Row.time row)).
        eexists _, state'. split; [exact Hrun|].
        split; [exact Hq | split; [exact Hn|]]. right. eexists. reflexivity.
      * exists (apply_fill st row (_signed_qty row)).
        eexists _, state'. split; [exact Hrun|].
        split; [exact Hq | split; [exact Hn|]]. left.
        split; [apply app_nil_r | exact Hget'].
  - intros quicksort df out Hagg.
    destruct (aggregate_rows_from quicksort df Hagg) as [state [Hfold [_ Hrows]]].
    exists state. split; [exact Hfold|].
    intros r Hin. destruct (Hrows r Hin) as [st H].
    exists st. split; [exact H|].
    destruct H as [[_ [-> | ->]] | [_ ->]]; split; reflexivity.
Qed.

Lemma reducing_fill_keeps_entry_witness :
  (exists st' state',
      process_row ([], [(("BTCUSDT", "BOTH"), st_long_one)]) row_sell_half =
        Ok ([], state') /\
      dict_get ("BTCUSDT", "BOTH") state' = Some st' /\
      St.net_qty st' = 0.5 /\
      St.qty_opened st' = 1 /\ St.entry_notional st' = 100) /\
  (exists out r st,
      aggregate_trades_to_positions stable fills_round_trip = Ok out /\
      In r (rows out) /\
      In st (flushed_by fills_round_trip) /\ r = closed_record st /\
      St.qty_opened st = 1 /\ St.entry_notional st = 100 /\
      Pos.entry_qty r = 1 /\ Pos.entry_vwap r = 100).
Proof.
  destruct reducing_fill_keeps_entry as [Hstep Hout]. split.
  - destruct (Hstep [] [(("BTCUSDT", "BOTH"), st_long_one)] row_sell_half
                st_long_one eq_refl eq_refl eq_refl)
      as [st' [positions' [state' [Hrun [Hq [Hn _]]]]]].
    vm_compute in Hrun. injection Hrun as <- <-.
    eexists _, _. split; [vm_compute; reflexivity|].
    split; [reflexivity|]. repeat split.
  - destruct (Hout stable fills_round_trip _ ltac:(vm_compute; reflexivity))
      as [state [_ _]].
    eexists _, _, _. split; [vm_compute; reflexivity|].
    split; [left; reflexivity|].
    split; [vm_compute; left; reflexivity|].
    repeat split.
Defined.

(** ** The empty frame *)

(** C5.  On the empty frame of fills the aggregator does not return an
    empty frame: no record is made, the frame of positions has no columns,
    and the final [sort_values(["open_time"])] raises [KeyError]. *)
Theorem empty_input_raises :
  fold_rows (sort row_leb (map normalize [])) ([], []) = Ok ([], []) /\
  columns (combine [] (open_positions_of [])) = [] /\
  forall quicksort,
    aggregate_trades_to_positions quicksort [] = Raise (KeyError "open_time").
Proof. repeat split. Qed.

(** ** The status column *)

(** C6, refuted as stated: after a round trip that leaves nothing open,
    the record flushed by the fold carries no status, and the output frame
    has no status column, whatever the kind of the final sort. *)
Lemma closed_only_has_no_status :
  exists out r,
    (forall quicksort,
        aggregate_trades_to_positions quicksort fills_round_trip = Ok out) /\
    fold_rows (sort row_leb (map normalize fills_round_trip)) ([], []) =
      Ok ([r], []) /\
    rows out = [r] /\
    Pos.close_time r = Some 2%Z /\
    Pos.status r <> Some CLOSED /\
    has_label "status" (columns out) = false.
Proof.
  eexists _, _. split.
  - intros quicksort.
    rewrite (@aggregate_of_fold quicksort fills_round_trip _ []
               ltac:(vm_compute; reflexivity)).
    unfold sort_values_open_time. cbn [combine open_positions_of map DataFrame_of
      empty rows columns negb has_label existsb closed_keys].
    cbn [String.eqb Ascii.eqb Bool.eqb orb andb]. rewrite arranges_single. reflexivity.
  - split; [vm_compute; reflexivity|].
    split; [reflexivity|]. split; [reflexivity|].
    split; [discriminate | reflexivity].
Qed.

Lemma open_positions_status (state : dict) (r : Pos.t) :
  In r (open_positions_of state) -> Pos.status r = Some OPEN.
Proof.
  unfold open_positions_of. rewrite in_map_iff. intros [[k st] [<- _]]. reflexivity.
Qed.

(** C6, amended.  Every record emitted at the end of the stream from a
    live state has status OPEN.  The records flushed during the fold have
    status CLOSED when at least one state is live at the end of the stream;
    when none is, they carry no status and the output frame has no status
    column. *)
Theorem status_by_open_positions (quicksort : SortKind) (df : list Raw.t)
    (out : DataFrame) :
  aggregate_trades_to_positions quicksort df = Ok out ->
  exists positions state,
    fold_rows (sort row_leb (map normalize df)) ([], []) = Ok (positions, state) /\
    (state <> [] ->
       has_label "status" (columns out) = true /\
       Permutation (rows out)
         (map (Pos.set_status (Some CLOSED)) positions ++ open_positions_of state) /\
       (forall r, In r (map (Pos.set_status (Some CLOSED)) positions) ->
                  Pos.status r = Some CLOSED) /\
       (forall r, In r (open_positions_of state) -> Pos.status r = Some OPEN)) /\
    (state = [] ->
       has_label "status" (columns out) = false /\
       Permutation (rows out) positions /\
       (forall r, In r positions -> Pos.status r = None)).
Proof.
  intros Hagg.
  destruct (aggregate_nonempty_ok quicksort (@aggregate_ok_nonempty quicksort _ _ Hagg))
    as [positions [state [Hfold [_ [Hrec Hout]]]]].
  rewrite Hout in Hagg. injection Hagg as <-. cbn [rows columns].
  exists positions, state. split; [exact Hfold|].
  rewrite status_label_combine, rows_combine. split.
  - intros Hne. destruct state as [|kv state]; [contradiction Hne; reflexivity|].
    cbn [open_positions_of map]. split; [reflexivity|]. split; [apply final_sort_perm|].
    split.
    + intros r Hr. apply in_map_iff in Hr. destruct Hr as [r0 [<- _]]. reflexivity.
    + intros r Hr. apply (@open_positions_status (kv :: state)). exact Hr.
  - intros ->. cbn [open_positions_of map]. split; [reflexivity|].
    split; [apply final_sort_perm|].
    intros r Hr. rewrite Forall_forall in Hrec.
    destruct (Hrec r Hr) as [st ->]. reflexivity.
Qed.

Lemma status_by_open_positions_witness :
  exists out positions state,
    aggregate_trades_to_positions stable fills_hedged = Ok out /\
    fold_rows (sort row_leb (map normalize fills_hedged)) ([], []) =
      Ok (positions, state) /\
    state <> [] /\
    has_label "status" (columns out) = true /\
    (forall r, In r (open_positions_of state) -> Pos.status r = Some OPEN).
Proof.
  destruct (@status_by_open_positions stable fills_hedged _ ltac:(vm_compute; reflexivity))
    as [positions [state [Hfold [Hopen _]]]].
  assert (Hne : state <> []).
  { intros ->. vm_compute in Hfold. discriminate Hfold. }
  destruct (Hopen Hne) as [Hlabel [_ [_ Hstatus]]].
  eexists _, positions, state. split; [vm_compute; reflexivity|].
  split; [exact Hfold|]. split; [exact Hne|]. split; [exact Hlabel | exact Hstatus].
Defined.

(** ** Negative accumulators *)

(** C9, refuted as stated: a fill with a negative price makes
    [entry_notional] negative; the fold goes on, and the record computed
    from the negative value is returned, with no error, whatever the kind
    of the final sort. *)
Lemma negative_entry_notional_is_emitted :
  exists st out r,
    process_row ([], []) (normalize fill_negative_price) =
      Ok ([], [(("BTCUSDT", "BOTH"), st)]) /\
    (St.entry_notional st <? 0) = true /\
    (forall quicksort,
        aggregate_trades_to_positions quicksort fills_negative_price = Ok out) /\
    rows out = [r] /\
    Pos.entry_qty r = 1 /\
    Pos.entry_vwap r = -100.
Proof.
  eexists _, _, _. split; [vm_compute; reflexivity|].
  split; [reflexivity|]. split.
  - intros quicksort.
    rewrite (@aggregate_of_fold quicksort fills_negative_price _ []
               ltac:(vm_compute; reflexivity)).
    unfold sort_values_open_time.
    cbn [combine open_positions_of map DataFrame_of empty rows columns negb
         has_label existsb closed_keys].
    cbn [String.eqb Ascii.eqb Bool.eqb orb andb]. rewrite arranges_single.
    reflexivity.
  - repeat split.
Qed.

(** An accumulator's [entry_notional] is made of [0.0], of products of a
    price and an absolute value, and of sums of these: it is not below
    zero unless a price is. *)
Lemma begin_state_notional (o : option St.t) (row : Row.t) :
  (forall st, o = Some st -> (St.entry_notional st <? 0) = false) ->
  (St.entry_notional (begin_state o row) <? 0) = false.
Proof.
  intros H. unfold begin_state. destruct o as [st|]; [|reflexivity].
  destruct (is_flat (St.net_qty st)); [reflexivity | apply H; reflexivity].
Qed.

Lemma key_settle_notional (st0 : St.t) (row : Row.t) (q : float) :
  (Row.price row <? 0) = false ->
  (St.entry_notional st0 <? 0) = false ->
  Forall (fun st => (St.entry_notional st <? 0) = false) (key_flushed st0 row q) /\
  (forall st', snd (key_settle st0 row q) = Some st' ->
               (St.entry_notional st' <? 0) = false).
Proof.
  intros Hp H0.
  assert (Ha : (St.entry_notional (apply_fill st0 row q) <? 0) = false).
  { unfold apply_fill. cbn [St.entry_notional].
    destruct (extends_position st0 q); [|exact H0].
    apply add_not_negative; [exact H0|].
    apply mul_not_negative; [exact Hp | apply abs_not_negative]. }
  assert (Hl : forall st2 l, (St.entry_notional (open_leftover st2 (Row.price row) l) <? 0)
                             = false).
  { intros st2 l. unfold open_leftover. cbn [St.entry_notional].
    apply mul_not_negative; [exact Hp | apply abs_not_negative]. }
  unfold key_flushed, key_settle.
  destruct (crosses_zero (St.net_qty st0) (St.net_qty st0 + q));
    destruct (is_flat (St.net_qty st0 + q)); cbn [snd]; split;
    try (intros st' [= <-]); try discriminate;
    repeat apply Forall_cons; try apply Forall_nil;
    first [exact Ha | apply Hl].
Qed.

Lemma fold_rows_notional (l : list Row.t) :
  Forall (fun row => (Row.price row <? 0) = false) l ->
  forall acc acc' : list Pos.t * dict,
    (forall k st, dict_get k (snd acc) = Some st ->
                  (St.entry_notional st <? 0) = false) ->
    fold_rows l acc = Ok acc' ->
    Forall (fun st => (St.entry_notional st <? 0) = false) (flushed_states l acc) /\
    (forall k st, dict_get k (snd acc') = Some st ->
                  (St.entry_notional st <? 0) = false).
Proof.
  induction 1 as [|row l Hp _ IH]; intros [p s] acc' Hs H;
    cbn [fold_rows flushed_states] in *.
  - injection H as <-. split; [constructor | exact Hs].
  - destruct (process_row_key_step p s row) as [s' [Hrun [Hget U]]].
    rewrite Hrun in *. cbn [bind snd] in *.
    destruct (@key_settle_notional (begin_state (dict_get (row_key row) s) row)
                row (_signed_qty row) Hp) as [Hfl Hst].
    { apply begin_state_notional. intros st Hst. exact (Hs _ _ Hst). }
    destruct (IH (p ++ fst (key_step (dict_get (row_key row) s) row), s') acc')
      as [Hfl' Hs'].
    + cbn [snd]. intros k st Hk. destruct (key_eqb k (row_key row)) eqn:E.
      * apply key_eqb_eq in E. rewrite E, Hget in Hk. exact (Hst _ Hk).
      * rewrite (updates_get_other k U E) in Hk. exact (Hs k st Hk).
    + exact H.
    + split; [apply Forall_app; split; assumption | exact Hs'].
Qed.

(** C9, amended.  The engine has no consistency check on its accumulators:
    for every non-empty frame of fills the fold completes and the
    aggregator returns its records without raising.  Every record is made
    from an accumulator of the fold; its [entry_qty] is an absolute value,
    so it is never negative; its [entry_vwap] is the accumulator's
    [entry_notional] over [entry_qty] whatever the sign of
    [entry_notional], so a negative [entry_notional] is emitted as it is;
    and the [entry_notional] of an accumulator is negative only when a
    fill of the frame has a negative price. *)
Theorem no_consistency_check (quicksort : SortKind) (df : list Raw.t) :
  df <> [] ->
  exists out state,
    aggregate_trades_to_positions quicksort df = Ok out /\
    fold_rows (sort row_leb (map normalize df)) ([], []) =
      Ok (map closed_record (flushed_by df), state) /\
    (forall r, In r (rows out) ->
       (Pos.entry_qty r <? 0) = false /\
       exists st,
         (In st (flushed_by df) /\
            (r = closed_record st \/
             r = Pos.set_status (Some CLOSED) (closed_record st)) \/
          In st (map snd state) /\ r = open_record st) /\
         Pos.entry_vwap r =
           (if 0 <? Pos.entry_qty r
            then St.entry_notional st / Pos.entry_qty r
            else 0)) /\
    (forall st, In st (flushed_by df) \/ In st (map snd state) ->
       (St.entry_notional st <? 0) = true ->
       exists f, In f df /\ (Row.price (normalize f) <? 0) = true).
Proof.
  intros Hdf.
  destruct (aggregate_nonempty_ok quicksort Hdf) as [positions [state0 [_ [_ [_ Hout]]]]].
  destruct (aggregate_rows_from quicksort df Hout) as [state [Hfold [Hok Hrows]]].
  eexists _, state. split; [exact Hout | split; [exact Hfold | split]].
  - intros r Hin. destruct (Hrows r Hin) as [st H]. split.
    + destruct H as [[_ [-> | ->]] | [_ ->]]; apply abs_not_negative.
    + exists st. split; [exact H|].
      destruct H as [[_ [-> | ->]] | [_ ->]]; reflexivity.
  - intros st Hst Hneg.
    destruct (existsb (fun f => Row.price (normalize f) <? 0) df) eqn:E.
    + apply existsb_exists in E. exact E.
    + exfalso.
      assert (Hall : Forall (fun row => (Row.price row <? 0) = false)
                       (sort row_leb (map normalize df))).
      { apply Forall_forall. intros row Hrow.
        apply (Permutation_in _ (sort_perm _ _)) in Hrow.
        apply in_map_iff in Hrow. destruct Hrow as [f [<- Hf]].
        destruct (Row.price (normalize f) <? 0) eqn:Ef; [|reflexivity].
        assert (Hex : existsb (fun f => Row.price (normalize f) <? 0) df = true).
        { apply existsb_exists. exists f. auto. }
        rewrite Hex in E. discriminate E. }
      destruct (@fold_rows_notional _ Hall ([], []) _
                  ltac:(intros k st' [=]) Hfold) as [Hfl Hlive].
      assert (Hno : (St.entry_notional st <? 0) = false).
      { destruct Hst as [Hst|Hst].
        - rewrite Forall_forall in Hfl. exact (Hfl st Hst).
        - apply in_map_iff in Hst. destruct Hst as [[k st'] [<- Hin]].
          exact (Hlive k st' (@in_dict_get k st' state Hok Hin)). }
      rewrite Hno in Hneg. discriminate Hneg.
Qed.

Lemma no_consistency_check_witness :
  fills_negative_price <> [] /\
  exists out state,
    aggregate_trades_to_positions stable fills_negative_price = Ok out /\
    fold_rows (sort row_leb (map normalize fills_negative_price)) ([], []) =
      Ok (map closed_record (flushed_by fills_negative_price), state) /\
    (forall r, In r (rows out) -> (Pos.entry_qty r <? 0) = false) /\
    (forall st, In st (flushed_by fills_negative_price) ->
       (St.entry_notional st <? 0) = true ->
       exists f, In f fills_negative_price /\
                 (Row.price (normalize f) <? 0) = true).
Proof.
  split; [discriminate|].
  destruct (@no_consistency_check stable fills_negative_price ltac:(discriminate))
    as [out [state [Hagg [Hfold [Hrows Hneg]]]]].
  exists out, state. split; [exact Hagg | split; [exact Hfold | split]].
  - intros r Hin. exact (proj1 (Hrows r Hin)).
  - intros st Hst. apply Hneg. left. exact Hst.
Defined.

(** ** Order of arrival *)

Lemma NoDup_map_eq (A B : Type) (f : A -> B) (l : list A) (a b : A) :
  NoDup (map f l) -> In a l -> In b l -> f a = f b -> a = b.
Proof.
  induction l as [|x l IH]; cbn; [tauto|].
  intros Hnd Ha Hb Hf. inversion Hnd as [|? ? Hni Hnd']; subst.
  destruct Ha as [->|Ha], Hb as [->|Hb]; auto.
  - contradiction Hni. rewrite Hf. apply in_map. exact Hb.
  - contradiction Hni. rewrite <- Hf. apply in_map. exact Ha.
Qed.

(** The rows in canonical order do not depend on the order of arrival. *)
Lemma sorted_rows_permutation (df df' : list Raw.t) :
  NoDup (map (fun r => (Raw.symbol r, Raw.id r)) df) ->
  Permutation df df' ->
  sort row_leb (map normalize df') = sort row_leb (map normalize df).
Proof.
  intros Hnd HP. symmetry.
  apply (@sort_permutation _ row_leb row_leb_total row_leb_trans).
  - apply Permutation_map. exact HP.
  - intros a b Ha Hb Hab Hba.
    apply in_map_iff in Ha, Hb.
    destruct Ha as [ra [<- Ha]], Hb as [rb [<- Hb]].
    pose proof (row_leb_antisym _ _ Hab Hba) as Hk.
    f_equal. apply (NoDup_map_eq _ _ _ _ Hnd Ha Hb).
    unfold sort_key in Hk. cbn in Hk. congruence.
Qed.

(** C7.  When [id] is unique within each symbol, the output depends on the
    set of fills only: every permutation of the input frame gives the same
    result, and so does running the aggregator again on the same frame. *)
Theorem aggregate_permutation_invariant (quicksort : SortKind) (df df' : list Raw.t)
    :
  NoDup (map (fun r => (Raw.symbol r, Raw.id r)) df) ->
  Permutation df df' ->
  aggregate_trades_to_positions quicksort df' = aggregate_trades_to_positions quicksort df.
Proof.
  intros Hnd HP. unfold aggregate_trades_to_positions. cbv zeta.
  rewrite (sorted_rows_permutation Hnd HP). reflexivity.
Qed.

Lemma aggregate_permutation_invariant_witness :
  NoDup (map (fun r => (Raw.symbol r, Raw.id r)) fills_round_trip) /\
  Permutation fills_round_trip fills_round_trip_swapped /\
  aggregate_trades_to_positions stable fills_round_trip_swapped =
    aggregate_trades_to_positions stable fills_round_trip.
Proof.
  assert (Hnd : NoDup (map (fun r => (Raw.symbol r, Raw.id r)) fills_round_trip)).
  { repeat constructor; cbn; intuition discriminate. }
  assert (HP : Permutation fills_round_trip fills_round_trip_swapped)
    by apply perm_swap.
  split; [exact Hnd | split; [exact HP|]].
  exact (aggregate_permutation_invariant stable Hnd HP).
Defined.

(** ** Independence of the keys *)

Lemma records_for_app (key : Key) (l1 l2 : list Pos.t) :
  records_for key (l1 ++ l2) = records_for key l1 ++ records_for key l2.
Proof. apply filter_app. Qed.

Lemma records_for_other (key k : Key) (l : list Pos.t) :
  key_eqb k key = false -> Forall (fun r => Pos.key r = k) l ->
  records_for key l = [].
Proof.
  intros Hne Hall. unfold records_for.
  induction Hall as [|r l Hr Hall IH]; cbn; [reflexivity|].
  rewrite Hr, Hne. exact IH.
Qed.

(** A row of the key: what is held for the key after the row depends only
    on what was held for it before. *)
Lemma process_row_same_key (key : Key) (acc1 acc2 acc1' acc2' : list Pos.t * dict)
    (row : Row.t) :
  row_key row = key ->
  project key acc1 = project key acc2 ->
  process_row acc1 row = Ok acc1' ->
  process_row acc2 row = Ok acc2' ->
  project key acc1' = project key acc2'.
Proof.
  destruct acc1 as [p1 s1], acc2 as [p2 s2]. unfold project. cbn [fst snd].
  intros <- [= Hrec Hget] H1 H2.
  destruct (process_row_key_step p1 s1 row) as [s1' [Hrun1 [Hget1 _]]].
  destruct (process_row_key_step p2 s2 row) as [s2' [Hrun2 [Hget2 _]]].
  rewrite Hrun1 in H1. rewrite Hrun2 in H2.
  injection H1 as <-. injection H2 as <-. cbn [fst snd].
  rewrite !records_for_app, Hrec, Hget1, Hget2, Hget. reflexivity.
Qed.

(** A row of another key: what is held for the key does not change. *)
Lemma process_row_other_key (key : Key) (acc acc' : list Pos.t * dict)
    (row : Row.t) :
  dict_ok (snd acc) ->
  key_eqb (row_key row) key = false ->
  process_row acc row = Ok acc' ->
  project key acc' = project key acc.
Proof.
  destruct acc as [p s]. unfold project. cbn [fst snd].
  intros Hok Hne H.
  destruct (process_row_ok p row Hok) as [s' [Hrun [_ [Hother [_ Hkeys]]]]].
  rewrite Hrun in H. injection H as <-. cbn [fst snd].
  rewrite records_for_app, (@records_for_other key _ _ Hne Hkeys), app_nil_r.
  rewrite Hother; [reflexivity|]. rewrite key_eqb_sym. exact Hne.
Qed.

Lemma process_row_keeps_ok (acc acc' : list Pos.t * dict) (row : Row.t) :
  dict_ok (snd acc) -> process_row acc row = Ok acc' -> dict_ok (snd acc').
Proof.
  destruct acc as [p s]. cbn [snd]. intros Hok H.
  destruct (process_row_ok p row Hok) as [s' [Hrun [_ [_ [Hok' _]]]]].
  rewrite Hrun in H. injection H as <-. exact Hok'.
Qed.

Lemma process_row_total (acc : list Pos.t * dict) (row : Row.t) :
  exists acc', process_row acc row = Ok acc'.
Proof.
  destruct acc as [p s].
  destruct (process_row_key_step p s row) as [s' [Hrun _]].
  eexists. exact Hrun.
Qed.

(** What the fold holds for a key at the end is what it holds after
    folding over the rows of that key alone. *)
Lemma fold_rows_project (key : Key) (l : list Row.t) :
  forall acc1 acc2 : list Pos.t * dict,
    dict_ok (snd acc1) -> dict_ok (snd acc2) ->
    project key acc1 = project key acc2 ->
    exists r1 r2,
      fold_rows l acc1 = Ok r1 /\
      fold_rows (filter (is_key key) l) acc2 = Ok r2 /\
      dict_ok (snd r1) /\
      project key r1 = project key r2.
Proof.
  induction l as [|row l IH]; intros acc1 acc2 Hok1 Hok2 Hproj.
  - exists acc1, acc2. cbn. auto.
  - destruct (process_row_total acc1 row) as [acc1' H1].
    pose proof (@process_row_keeps_ok acc1 acc1' row Hok1 H1) as Hok1'.
    cbn [fold_rows filter]. rewrite H1. cbn [bind].
    unfold is_key at 1. destruct (key_eqb (row_key row) key) eqn:Ek.
    + destruct (process_row_total acc2 row) as [acc2' H2].
      pose proof (@process_row_keeps_ok acc2 acc2' row Hok2 H2) as Hok2'.
      cbn [fold_rows]. rewrite H2. cbn [bind].
      apply IH; [exact Hok1' | exact Hok2' |].
      apply key_eqb_eq in Ek.
      exact (@process_row_same_key key acc1 acc2 acc1' acc2' row Ek Hproj H1 H2).
    + apply IH; [exact Hok1' | exact Hok2 |].
      rewrite (@process_row_other_key key acc1 acc1' row Hok1 Ek H1). exact Hproj.
Qed.

Lemma filter_map_comm (A B : Type) (f : A -> B) (p : B -> bool) (l : list A) :
  filter p (map f l) = map f (filter (fun a => p (f a)) l).
Proof.
  induction l as [|x l IH]; cbn; [reflexivity|].
  rewrite IH. destruct (p (f x)); reflexivity.
Qed.

Lemma filter_filter_implied (A : Type) (p q : A -> bool) (l : list A) :
  (forall x, p x = true -> q x = true) -> filter p (filter q l) = filter p l.
Proof.
  intros Hpq. induction l as [|x l IH]; cbn; [reflexivity|].
  destruct (p x) eqn:Px.
  - rewrite (Hpq x Px). cbn. rewrite Px, IH. reflexivity.
  - destruct (q x); cbn; rewrite ?Px; exact IH.
Qed.

(** The rows of a key, in the order the loop meets them, do not depend on
    the fills of another key. *)
Lemma key_rows_drop_key (key other : Key) (df : list Raw.t) :
  key_eqb key other = false ->
  filter (is_key key) (sort row_leb (map normalize (drop_key other df))) =
  filter (is_key key) (sort row_leb (map normalize df)).
Proof.
  intros Hne.
  rewrite !(@filter_sort _ row_leb row_leb_total row_leb_trans), !filter_map_comm.
  unfold drop_key. do 2 f_equal.
  apply filter_filter_implied. intros r Hr.
  unfold is_key in Hr. change (row_key (normalize r)) with (raw_key r) in Hr.
  apply key_eqb_eq in Hr. rewrite Hr, Hne. reflexivity.
Qed.

Lemma run_fold_ok (df : list Raw.t) :
  fold_rows (sort row_leb (map normalize df)) ([], []) = Ok (run_fold df) /\
  dict_ok (snd (run_fold df)) /\
  Forall (fun r => exists st, r = closed_record st) (fst (run_fold df)).
Proof.
  destruct (aggregate_unfold stable df) as [positions [state [Hfold [Hok [Hrec _]]]]].
  unfold run_fold. unfold dict in Hfold. rewrite Hfold. auto.
Qed.

(** The accumulators of a key are those of the frame without the fills of
    another key. *)
Lemma project_drop_key (key other : Key) (df : list Raw.t) :
  key_eqb key other = false ->
  project key (run_fold (drop_key other df)) = project key (run_fold df).
Proof.
  intros Hne.
  destruct (run_fold_ok df) as [H1 [Hok1 _]].
  destruct (run_fold_ok (drop_key other df)) as [H2 [Hok2 _]].
  destruct (@fold_rows_project key (sort row_leb (map normalize df))
              ([], []) ([], []) dict_ok_nil dict_ok_nil eq_refl)
    as [r1 [r1' [Hr1 [Hr1' [_ Hp1]]]]].
  destruct (@fold_rows_project key
              (sort row_leb (map normalize (drop_key other df)))
              ([], []) ([], []) dict_ok_nil dict_ok_nil eq_refl)
    as [r2 [r2' [Hr2 [Hr2' [_ Hp2]]]]].
  rewrite (@key_rows_drop_key key other df Hne) in Hr2'.
  unfold dict in *.
  rewrite H1 in Hr1. rewrite H2 in Hr2. rewrite Hr1' in Hr2'.
  injection Hr1 as <-. injection Hr2 as <-. injection Hr2' as <-.
  rewrite Hp1, Hp2. reflexivity.
Qed.

Lemma not_in_dict_get_none (k : Key) (d : dict) :
  ~ In k (map fst d) -> dict_get k d = None.
Proof.
  induction d as [|[k' w] d IH]; cbn; [reflexivity|].
  intros Hni. destruct (key_eqb k k') eqn:E.
  - apply key_eqb_eq in E. contradiction Hni. left. symmetry. exact E.
  - apply IH. intros H. apply Hni. right. exact H.
Qed.

(** Of the open records, a key has the one made from its live state. *)
Lemma open_records_for (key : Key) (state : dict) :
  dict_ok state ->
  records_for key (open_positions_of state) =
  match dict_get key state with
  | Some st => [open_record st]
  | None => []
  end.
Proof.
  induction state as [|[k st] state IH]; intros [Hnd Hall]; [reflexivity|].
  inversion Hnd as [|? ? Hni Hnd']; subst.
  inversion Hall as [|? ? Hk Hall']; subst. cbn [fst snd] in Hk.
  specialize (IH (conj Hnd' Hall')).
  cbn [open_positions_of map records_for filter snd dict_get].
  change (Pos.key (open_record st)) with (St.key st). rewrite Hk.
  rewrite (key_eqb_sym key k).
  destruct (key_eqb k key) eqn:E.
  - apply key_eqb_eq in E. rewrite E in Hni.
    fold (open_positions_of state). fold (records_for key (open_positions_of state)).
    rewrite IH, (not_in_dict_get_none _ _ Hni). reflexivity.
  - exact IH.
Qed.

Lemma without_closed_tag_open_time (a b : Pos.t) :
  open_time_leb (without_closed_tag a) (without_closed_tag b) = open_time_leb a b.
Proof.
  unfold without_closed_tag, open_time_leb.
  destruct (Pos.status a) as [[|]|], (Pos.status b) as [[|]|]; reflexivity.
Qed.

Lemma without_closed_tag_key (r : Pos.t) : Pos.key (without_closed_tag r) = Pos.key r.
Proof.
  unfold without_closed_tag. destruct (Pos.status r) as [[|]|]; reflexivity.
Qed.

Lemma without_closed_tag_combine (positions : list Pos.t) (state : dict) :
  Forall (fun r => exists st, r = closed_record st) positions ->
  map without_closed_tag (rows (combine positions (open_positions_of state))) =
  positions ++ open_positions_of state.
Proof.
  intros Hrec. rewrite rows_combine.
  assert (Hopen : forall s, map without_closed_tag (open_positions_of s) =
                            open_positions_of s).
  { intros s. unfold open_positions_of. rewrite map_map.
    apply map_ext. intros [k st]. reflexivity. }
  destruct (open_positions_of state) as [|o os] eqn:Eo.
  - rewrite app_nil_r. induction Hrec as [|r l [st ->] _ IH]; [reflexivity|].
    cbn [map]. rewrite IH. reflexivity.
  - rewrite map_app, <- Eo, Hopen. f_equal.
    induction Hrec as [|r l [st ->] _ IH]; [reflexivity|].
    cbn [map]. rewrite IH. reflexivity.
Qed.

(** The records of the output, the CLOSED tag apart, are the closed and
    the open records of the fold, in the order the final sort leaves them
    in. *)
Lemma output_without_closed_tag (quicksort : SortKind) (df : list Raw.t) :
  Permutation
    (map without_closed_tag
       (records_of (aggregate_trades_to_positions quicksort df)))
    (fst (run_fold df) ++ open_positions_of (snd (run_fold df))).
Proof.
  destruct df as [|r0 df]; [apply Permutation_refl|].
  assert (Hne : r0 :: df <> []) by discriminate.
  destruct (aggregate_nonempty_ok quicksort Hne) as [positions [state [Hfold [_ [Hrec ->]]]]].
  destruct (run_fold_ok (r0 :: df)) as [Hrun _].
  unfold dict in *. rewrite Hfold in Hrun. injection Hrun as <-.
  cbn [records_of rows fst snd].
  rewrite <- (without_closed_tag_combine state Hrec).
  apply Permutation_map. apply final_sort_perm.
Qed.

Lemma records_for_map_tag (key : Key) (l : list Pos.t) :
  records_for key (map without_closed_tag l) =
  map without_closed_tag (records_for key l).
Proof.
  unfold records_for. rewrite filter_map_comm. f_equal.
  induction l as [|r l IH]; cbn; [reflexivity|].
  rewrite without_closed_tag_key, IH. reflexivity.
Qed.

Lemma Permutation_filter (A : Type) (p : A -> bool) (l l' : list A) :
  Permutation l l' -> Permutation (filter p l) (filter p l').
Proof.
  induction 1 as [|x l l' _ IH|x y l|l l' l'' _ IH1 _ IH2]; cbn [filter].
  - apply perm_nil.
  - destruct (p x); [apply perm_skip|]; exact IH.
  - destruct (p x), (p y); try apply Permutation_refl. apply perm_swap.
  - exact (perm_trans IH1 IH2).
Qed.

(** The records of a key in the output are, as a collection, determined
    by what the fold holds for the key. *)
Lemma output_for_key (quicksort : SortKind) (key : Key) (df : list Raw.t) :
  Permutation
    (records_for key
       (map without_closed_tag
          (records_of (aggregate_trades_to_positions quicksort df))))
    (fst (project key (run_fold df)) ++
     match snd (project key (run_fold df)) with
     | Some st => [open_record st]
     | None => []
     end).
Proof.
  etransitivity.
  - apply Permutation_filter. apply output_without_closed_tag.
  - fold (records_for key
            (fst (run_fold df) ++ open_positions_of (snd (run_fold df)))).
    rewrite records_for_app.
    destruct (run_fold_ok df) as [_ [Hok _]].
    rewrite (open_records_for key Hok). apply Permutation_refl.
Qed.

(** C8, refuted as stated: the record of the long round trip carries the
    status CLOSED when the short leg of the symbol is in the frame and
    stays open, and no status when the short fills are left out; no kind
    of the final sort makes the two outputs for the key agree. *)
Lemma closed_tag_depends_on_other_leg :
  ~ exists quicksort,
      records_for ("BTCUSDT", "LONG")
        (records_of (aggregate_trades_to_positions quicksort
                       (drop_key ("BTCUSDT", "SHORT") fills_hedged))) =
      records_for ("BTCUSDT", "LONG")
        (records_of (aggregate_trades_to_positions quicksort fills_hedged)).
Proof.
  intros [quicksort Heq]. revert Heq.
  rewrite (@aggregate_of_fold quicksort
             (drop_key ("BTCUSDT", "SHORT") fills_hedged) _ []
             ltac:(vm_compute; reflexivity)).
  rewrite (@aggregate_of_fold quicksort fills_hedged _ _
             ltac:(vm_compute; reflexivity)).
  rewrite !sort_values_open_time_ok by (left; discriminate).
  cbn [records_of rows]. rewrite !rows_combine.
  cbn [open_positions_of map app snd]. rewrite arranges_single.
  intros Heq.
  match type of Heq with
  | _ = records_for ?k (sort open_time_leb (arranges quicksort ?l)) =>
      assert (Hin : forall r, In r (records_for k
                                      (sort open_time_leb (arranges quicksort l))) ->
                              In r l)
  end.
  { intros r Hr. apply filter_In in Hr. destruct Hr as [Hr _].
    exact (Permutation_in _ (final_sort_perm _ _) Hr). }
  rewrite <- Heq in Hin.
  specialize (Hin _ (or_introl eq_refl)).
  vm_compute in Hin. destruct Hin as [H|[H|[]]]; discriminate H.
Qed.

(** C8, amended.  The fills of the keys (symbol, LONG) and (symbol, SHORT)
    do not touch each other's accumulators, interleaved in time or not: the
    closed records and the live state the fold holds for one key are the
    same with and without the fills of the other, and so are the records of
    that key in the output, in every field but the CLOSED status tag, which
    is there only when a state of some key is left open.  The records of
    the key in the two outputs are the same collection; the final sort,
    which is not stable, decides the order of those with equal
    [open_time]. *)
Theorem hedge_legs_independent (quicksort : SortKind) (df : list Raw.t)
    (symbol : string) :
  (project (symbol, "LONG") (run_fold (drop_key (symbol, "SHORT") df)) =
     project (symbol, "LONG") (run_fold df) /\
   Permutation
     (records_for (symbol, "LONG")
        (map without_closed_tag
           (records_of (aggregate_trades_to_positions quicksort
                          (drop_key (symbol, "SHORT") df)))))
     (records_for (symbol, "LONG")
        (map without_closed_tag
           (records_of (aggregate_trades_to_positions quicksort df))))) /\
  (project (symbol, "SHORT") (run_fold (drop_key (symbol, "LONG") df)) =
     project (symbol, "SHORT") (run_fold df) /\
   Permutation
     (records_for (symbol, "SHORT")
        (map without_closed_tag
           (records_of (aggregate_trades_to_positions quicksort
                          (drop_key (symbol, "LONG") df)))))
     (records_for (symbol, "SHORT")
        (map without_closed_tag
           (records_of (aggregate_trades_to_positions quicksort df))))).
Proof.
  assert (Hls : key_eqb (symbol, "LONG") (symbol, "SHORT") = false).
  { apply key_eqb_neq. intros [= ]. }
  assert (Hsl : key_eqb (symbol, "SHORT") (symbol, "LONG") = false).
  { apply key_eqb_neq. intros [= ]. }
  split; (split; [apply project_drop_key; assumption |]).
  - etransitivity; [apply output_for_key|].
    rewrite (@project_drop_key _ _ df Hls).
    apply Permutation_sym. apply output_for_key.
  - etransitivity; [apply output_for_key|].
    rewrite (@project_drop_key _ _ df Hsl).
    apply Permutation_sym. apply output_for_key.
Qed.

(** * Further properties of the aggregator *)

Unset Implicit Arguments.

(** ** Where the rows of the output come from *)

Lemma aggregate_rows_cases (quicksort : SortKind) (df : list Raw.t)
    (out : DataFrame) (r : Pos.t) :
  aggregate_trades_to_positions quicksort df = Ok out -> In r (rows out) ->
  (exists r0, In r0 (fst (run_fold df)) /\
              (r = r0 \/ r = Pos.set_status (Some CLOSED) r0)) \/
  (exists k st, In (k, st) (snd (run_fold df)) /\ r = open_record st).
Proof.
  intros Hagg Hin.
  destruct (aggregate_nonempty_ok quicksort (@aggregate_ok_nonempty quicksort _ _ Hagg))
    as [positions [state [Hfold [_ [_ Hout]]]]].
  destruct (run_fold_ok df) as [Hrun _].
  unfold dict in *. rewrite Hfold in Hrun. injection Hrun as <-.
  rewrite Hout in Hagg. injection Hagg as <-. cbn [rows fst snd] in *.
  apply (Permutation_in _ (final_sort_perm _ _)) in Hin.
  rewrite rows_combine in Hin.
  destruct (open_positions_of state) as [|o os] eqn:Eo.
  - left. exists r. auto.
  - rewrite <- Eo in Hin. apply in_app_or in Hin. destruct Hin as [Hin|Hin].
    + apply in_map_iff in Hin. destruct Hin as [r0 [<- Hin]]. left. exists r0. auto.
    + unfold open_positions_of in Hin. apply in_map_iff in Hin.
      destruct Hin as [[k st] [<- Hin]]. right. exists k, st. auto.
Qed.

(** A property of the records that every row establishes holds of all
    the records the loop appends. *)
Lemma fold_rows_records (P : Pos.t -> Prop) :
  (forall st0 row q, Forall P (fst (key_settle st0 row q))) ->
  forall (l : list Row.t) (acc acc' : list Pos.t * dict),
    Forall P (fst acc) -> fold_rows l acc = Ok acc' -> Forall P (fst acc').
Proof.
  intros Hstep. induction l as [|row l IH]; intros [p s] acc' Hp H;
    cbn [fold_rows] in H.
  - injection H as <-. exact Hp.
  - destruct (process_row_key_step p s row) as [s' [Hrun _]].
    rewrite Hrun in H. cbn [bind] in H.
    refine (IH _ _ _ H). cbn [fst] in *.
    apply Forall_app. split; [exact Hp | apply Hstep].
Qed.

Lemma run_fold_live_not_flat (df : list Raw.t) : live_not_flat (snd (run_fold df)).
Proof.
  destruct (run_fold_ok df) as [Hrun _].
  apply (@fold_rows_live_not_flat _ ([], []) _ ltac:(intros k st [=]) Hrun).
Qed.

(** A property that every row establishes of the state it leaves holds
    of every live state. *)
Lemma fold_rows_live (Q : St.t -> Prop) :
  (forall st0 row q st', snd (key_settle st0 row q) = Some st' -> Q st') ->
  forall (l : list Row.t) (acc acc' : list Pos.t * dict),
    (forall k st, dict_get k (snd acc) = Some st -> Q st) ->
    fold_rows l acc = Ok acc' ->
    forall k st, dict_get k (snd acc') = Some st -> Q st.
Proof.
  intros Hstep. induction l as [|row l IH]; intros [p s] acc' Hq H;
    cbn [fold_rows] in H.
  - injection H as <-. exact Hq.
  - destruct (process_row_key_step p s row) as [s' [Hrun [Hget U]]].
    rewrite Hrun in H. cbn [bind] in H.
    refine (IH _ _ _ H). cbn [snd] in *. intros k st Hk.
    destruct (key_eqb k (row_key row)) eqn:E.
    + apply key_eqb_eq in E. subst k. rewrite Hget in Hk.
      exact (Hstep _ _ _ _ Hk).
    + rewrite (updates_get_other k U E) in Hk. exact (Hq k st Hk).
Qed.

(** ** The order of the output *)

Lemma StronglySorted_impl (A : Type) (R R' : A -> A -> Prop) (l : list A) :
  (forall a b, R a b -> R' a b) -> StronglySorted R l -> StronglySorted R' l.
Proof.
  intros HR. induction 1 as [|x l Hs IH Hall]; constructor; [exact IH|].
  revert Hall. apply Forall_impl. apply HR.
Qed.

(** X1.  The rows of a returned frame are in ascending order of
    [open_time]. *)
Theorem output_sorted_by_open_time (quicksort : SortKind) (df : list Raw.t)
    (out : DataFrame) :
  aggregate_trades_to_positions quicksort df = Ok out ->
  StronglySorted (fun a b => (Pos.open_time a <= Pos.open_time b)%Z) (rows out).
Proof.
  intros Hagg.
  destruct (aggregate_nonempty_ok quicksort (@aggregate_ok_nonempty quicksort _ _ Hagg))
    as [positions [state [_ [_ [_ Hout]]]]].
  rewrite Hout in Hagg. injection Hagg as <-. cbn [rows].
  apply StronglySorted_impl with (R := le_of open_time_leb).
  - intros a b. unfold le_of, open_time_leb. apply Z.leb_le.
  - apply (@sort_sorted _ open_time_leb open_time_leb_total open_time_leb_trans).
Qed.

Lemma output_sorted_by_open_time_witness :
  exists out,
    aggregate_trades_to_positions stable fills_hedged = Ok out /\
    StronglySorted (fun a b => (Pos.open_time a <= Pos.open_time b)%Z) (rows out).
Proof.
  eexists. split; [vm_compute; reflexivity|].
  apply (@output_sorted_by_open_time stable fills_hedged). vm_compute. reflexivity.
Defined.

(** ** The open records *)

Lemma filter_open_combine (positions : list Pos.t) (state : dict) :
  Forall (fun r => exists st, r = closed_record st) positions ->
  filter is_open (rows (combine positions (open_positions_of state))) =
  open_positions_of state.
Proof.
  intros Hrec. rewrite rows_combine.
  assert (Hclosed : forall f, (forall r, is_open r = false -> is_open (f r) = false) ->
                              filter is_open (map f positions) = []).
  { intros f Hf. induction Hrec as [|r l [st ->] _ IH]; [reflexivity|].
    cbn [map filter]. rewrite (Hf (closed_record st) eq_refl). exact IH. }
  assert (Hopen : forall s, filter is_open (open_positions_of s) = open_positions_of s).
  { unfold open_positions_of. induction s as [|[k st] s IH]; [reflexivity|].
    cbn [map filter]. change (is_open (open_record (snd (k, st)))) with true.
    cbn iota. rewrite IH. reflexivity. }
  destruct (open_positions_of state) as [|o os] eqn:Eo.
  - rewrite <- (map_id positions). apply Hclosed. auto.
  - rewrite filter_app, <- Eo, Hopen, Hclosed; [reflexivity|].
    intros r _. reflexivity.
Qed.

Lemma open_positions_keys (state : dict) :
  dict_ok state -> map Pos.key (open_positions_of state) = map fst state.
Proof.
  intros [_ Hall]. unfold open_positions_of. rewrite map_map.
  induction Hall as [|[k st] d Hk _ IH]; [reflexivity|].
  cbn [map]. rewrite IH. cbn [fst snd] in Hk. rewrite <- Hk. reflexivity.
Qed.

(** X2.  A returned frame has at most one OPEN record for a key: the keys
    of its OPEN rows are pairwise distinct. *)
Theorem one_open_record_per_key (quicksort : SortKind) (df : list Raw.t)
    (out : DataFrame) :
  aggregate_trades_to_positions quicksort df = Ok out ->
  NoDup (map Pos.key (filter is_open (rows out))).
Proof.
  intros Hagg.
  destruct (aggregate_nonempty_ok quicksort (@aggregate_ok_nonempty quicksort _ _ Hagg))
    as [positions [state [_ [Hok [Hrec Hout]]]]].
  rewrite Hout in Hagg. injection Hagg as <-. cbn [rows].
  apply (Permutation_NoDup (l := map fst state)); [|exact (proj1 Hok)].
  rewrite <- (open_positions_keys state Hok). apply Permutation_map.
  eapply perm_trans;
    [| apply (@Permutation_filter _ is_open); symmetry; apply final_sort_perm].
  rewrite (filter_open_combine positions state Hrec). apply Permutation_refl.
Qed.

Lemma one_open_record_per_key_witness :
  exists out,
    aggregate_trades_to_positions stable fills_hedged = Ok out /\
    NoDup (map Pos.key (filter is_open (rows out))).
Proof.
  eexists. split; [vm_compute; reflexivity|].
  apply (@one_open_record_per_key stable fills_hedged). vm_compute. reflexivity.
Defined.

(** X3.  An OPEN record is never flat: it has a [net_qty], whose absolute
    value is not below the threshold, and neither [close_time] nor
    [duration_min]. *)
Theorem open_record_not_flat (quicksort : SortKind) (df : list Raw.t)
    (out : DataFrame) (r : Pos.t) :
  aggregate_trades_to_positions quicksort df = Ok out ->
  In r (rows out) ->
  Pos.status r = Some OPEN ->
  Pos.close_time r = None /\ Pos.duration_min r = None /\
  exists q, Pos.net_qty r = Some q /\ (abs q <? config.MIN_QTY_THRESHOLD) = false.
Proof.
  intros Hagg Hin Hst.
  destruct (run_fold_ok df) as [_ [Hok Hrec]]. rewrite Forall_forall in Hrec.
  destruct (@aggregate_rows_cases quicksort df out r Hagg Hin)
    as [[r0 [Hr0 [-> | ->]]] | [k [st [Hkst ->]]]].
  - destruct (Hrec r0 Hr0) as [st ->]. discriminate Hst.
  - discriminate Hst.
  - split; [reflexivity | split; [reflexivity|]].
    exists (St.net_qty st). split; [reflexivity|].
    apply (@run_fold_live_not_flat df k). exact (@in_dict_get k st _ Hok Hkst).
Qed.

Lemma open_record_not_flat_witness :
  exists out r,
    aggregate_trades_to_positions stable fills_hedged = Ok out /\
    In r (rows out) /\ Pos.status r = Some OPEN /\
    Pos.close_time r = None /\ Pos.net_qty r = Some 1.
Proof.
  eexists _, _. split; [vm_compute; reflexivity|].
  split; [right; left; reflexivity|]. split; [reflexivity|].
  destruct (@open_record_not_flat stable fills_hedged _ _
              ltac:(vm_compute; reflexivity) (or_intror (or_introl eq_refl)) eq_refl)
    as [Hc _].
  split; [exact Hc | reflexivity].
Defined.

(** ** Open and close times *)

(** Of two rows of one key, the one that sorts first is not the later. *)
Lemma row_leb_same_key_time (a b : Row.t) :
  row_leb a b = true -> row_key a = row_key b -> (Row.time a <= Row.time b)%Z.
Proof.
  unfold row_leb, key_compare, lex_compare, sort_key, row_key. cbn [fst snd].
  intros H Hk. injection Hk as Hs Hp. rewrite Hs, Hp in H.
  rewrite !(order_compare_refl _ order_compare_string) in H.
  destruct (Row.time a ?= Row.time b)%Z eqn:E; try discriminate H.
  - apply Z.compare_eq in E. rewrite E. apply Z.le_refl.
  - apply Z.compare_lt_iff in E. apply Z.lt_le_incl. exact E.
Qed.

Lemma closes_after_open_closed (st : St.t) :
  (forall c, St.close_time st = Some c -> (St.open_time st <= c)%Z) ->
  closes_after_open (closed_record st).
Proof.
  intros H c Hc. cbn [closed_record Pos.close_time] in Hc. split.
  - apply H. exact Hc.
  - cbn [closed_record Pos.duration_min Pos.open_time]. rewrite Hc. reflexivity.
Qed.

Lemma key_settle_times (st0 : St.t) (row : Row.t) (q : float) :
  (St.open_time st0 <= Row.time row)%Z ->
  Forall closes_after_open (fst (key_settle st0 row q)) /\
  (forall st', snd (key_settle st0 row q) = Some st' ->
               (St.open_time st' <= Row.time row)%Z).
Proof.
  intros Hle. unfold key_settle.
  destruct (crosses_zero (St.net_qty st0) (St.net_qty st0 + q));
    destruct (is_flat (St.net_qty st0 + q)); cbn [fst snd]; split;
    try (intros st' [= <-]; cbn; first [exact Hle | apply Z.le_refl]);
    repeat (apply Forall_cons); try apply Forall_nil;
    apply closes_after_open_closed; cbn;
    first [intros c [= <-]; exact Hle | intros c [=]].
Qed.

Lemma fold_rows_times (l : list Row.t) :
  forall acc acc' : list Pos.t * dict,
    StronglySorted (le_of row_leb) l ->
    (forall k st, dict_get k (snd acc) = Some st ->
       forall r, In r l -> row_key r = k -> (St.open_time st <= Row.time r)%Z) ->
    Forall closes_after_open (fst acc) ->
    fold_rows l acc = Ok acc' ->
    Forall closes_after_open (fst acc').
Proof.
  induction l as [|row l IH]; intros [p s] acc' Hs Hlive Hp H;
    cbn [fold_rows] in H.
  - injection H as <-. exact Hp.
  - inversion Hs as [|? ? Hs' Hall]; subst. rewrite Forall_forall in Hall.
    destruct (process_row_key_step p s row) as [s' [Hrun [Hget U]]].
    rewrite Hrun in H. cbn [bind] in H. cbn [fst snd] in *.
    assert (Hbegin : (St.open_time (begin_state (dict_get (row_key row) s) row)
                      <= Row.time row)%Z).
    { unfold begin_state. destruct (dict_get (row_key row) s) as [st|] eqn:E;
        [|cbn; lia].
      destruct (is_flat (St.net_qty st)); [cbn; lia|].
      apply (Hlive _ _ E row); [left|]; reflexivity. }
    destruct (key_settle_times _ row (_signed_qty row) Hbegin) as [Hrecs Hnew].
    refine (IH _ _ Hs' _ _ H); cbn [fst snd].
    + intros k st Hk r Hr Hrk. destruct (key_eqb k (row_key row)) eqn:E.
      * apply key_eqb_eq in E. rewrite E in Hk, Hrk. rewrite Hget in Hk.
        specialize (Hnew st Hk).
        pose proof (row_leb_same_key_time _ _ (Hall r Hr) (eq_sym Hrk)) as Ht.
        exact (Z.le_trans _ _ _ Hnew Ht).
      * rewrite (updates_get_other k U E) in Hk.
        apply (Hlive k st Hk r); [right; exact Hr | exact Hrk].
    + apply Forall_app. split; [exact Hp | exact Hrecs].
Qed.

(** X4.  In a returned frame a record with a [close_time] was opened no
    later than it was closed, and its [duration_min] is made from the
    difference, which is not negative. *)
Theorem closed_after_opened (quicksort : SortKind) (df : list Raw.t)
    (out : DataFrame) (r : Pos.t)
    (c : Timestamp) :
  aggregate_trades_to_positions quicksort df = Ok out ->
  In r (rows out) ->
  Pos.close_time r = Some c ->
  (Pos.open_time r <= c)%Z /\
  Pos.duration_min r = Some (c - Pos.open_time r)%Z.
Proof.
  intros Hagg Hin Hc.
  destruct (run_fold_ok df) as [Hrun _].
  assert (Hall : Forall closes_after_open (fst (run_fold df))).
  { apply (@fold_rows_times _ ([], []) _
             (@sort_sorted _ row_leb row_leb_total row_leb_trans _)
             ltac:(intros k st [=]) (Forall_nil _) Hrun). }
  rewrite Forall_forall in Hall.
  destruct (@aggregate_rows_cases quicksort df out r Hagg Hin)
    as [[r0 [Hr0 [-> | ->]]] | [k [st [_ ->]]]].
  - exact (Hall r0 Hr0 c Hc).
  - exact (Hall r0 Hr0 c Hc).
  - discriminate Hc.
Qed.

Lemma closed_after_opened_witness :
  exists out r,
    aggregate_trades_to_positions stable fills_round_trip = Ok out /\
    In r (rows out) /\ Pos.close_time r = Some 2%Z /\
    (Pos.open_time r <= 2)%Z /\ Pos.duration_min r = Some 1%Z.
Proof.
  eexists _, _. split; [vm_compute; reflexivity|].
  split; [left; reflexivity|]. split; [reflexivity|].
  apply (@closed_after_opened stable fills_round_trip _ _ 2%Z
           ltac:(vm_compute; reflexivity) (or_introl eq_refl) eq_refl).
Defined.

(** ** Closed records without a close time *)

Lemma key_settle_leftover (st0 : St.t) (row : Row.t) (q : float) :
  Forall leftover_if_no_close_time (fst (key_settle st0 row q)).
Proof.
  unfold key_settle.
  destruct (crosses_zero (St.net_qty st0) (St.net_qty st0 + q));
    destruct (is_flat (St.net_qty st0 + q)) eqn:E; cbn [fst];
    repeat (apply Forall_cons); try apply Forall_nil;
    unfold leftover_if_no_close_time; cbn; try discriminate.
  intros _. repeat split. exact E.
Qed.

(** X5.  A record flushed by the loop has a [close_time], with one
    exception: the leftover of a flip that is itself below the threshold
    is flushed with [close_time] unset.  Such a record has one fill, zero
    commission and realized P&L, no duration, and an entry quantity below
    the threshold. *)
Theorem closed_without_close_time (quicksort : SortKind) (df : list Raw.t)
    (out : DataFrame) (r : Pos.t) :
  aggregate_trades_to_positions quicksort df = Ok out ->
  In r (rows out) ->
  Pos.status r <> Some OPEN ->
  Pos.close_time r = None ->
  Pos.fills r = 1%Z /\ Pos.commission r = 0 /\ Pos.realizedPnl r = 0 /\
  Pos.duration_min r = None /\
  (Pos.entry_qty r <? config.MIN_QTY_THRESHOLD) = true.
Proof.
  intros Hagg Hin Hst Hc.
  destruct (run_fold_ok df) as [Hrun _].
  pose proof (@fold_rows_records _ key_settle_leftover _ ([], []) _
                (Forall_nil _) Hrun) as Hall.
  rewrite Forall_forall in Hall.
  destruct (@aggregate_rows_cases quicksort df out r Hagg Hin)
    as [[r0 [Hr0 [-> | ->]]] | [k [st [_ ->]]]].
  - exact (Hall r0 Hr0 Hc).
  - exact (Hall r0 Hr0 Hc).
  - contradiction Hst. reflexivity.
Qed.

Lemma closed_without_close_time_witness :
  exists out r,
    aggregate_trades_to_positions stable fills_flip_dust = Ok out /\
    In r (rows out) /\ Pos.status r <> Some OPEN /\ Pos.close_time r = None /\
    Pos.fills r = 1%Z /\ Pos.commission r = 0 /\ Pos.realizedPnl r = 0.
Proof.
  eexists _, _. split; [vm_compute; reflexivity|].
  split; [right; left; reflexivity|].
  split; [discriminate|]. split; [reflexivity|].
  destruct (closed_without_close_time stable fills_flip_dust _ _
              ltac:(vm_compute; reflexivity) (or_intror (or_introl eq_refl))
              ltac:(discriminate) eq_refl) as [Hf [Hc [Hp _]]].
  split; [exact Hf | split; [exact Hc | exact Hp]].
Defined.

(** ** Any two keys *)

(** X6.  Two distinct keys never interact, whether they differ in the
    symbol or in the position side: the closed records and the live state
    the fold holds for a key are the same with and without the fills of
    another key, and the records of that key in the output (the CLOSED tag
    apart) are the same collection; the final sort, which is not stable,
    decides the order of those with equal [open_time]. *)
Theorem keys_independent (quicksort : SortKind) (df : list Raw.t)
    (key other : Key) :
  key <> other ->
  project key (run_fold (drop_key other df)) = project key (run_fold df) /\
  Permutation
    (records_for key
       (map without_closed_tag
          (records_of (aggregate_trades_to_positions quicksort
                         (drop_key other df)))))
    (records_for key
       (map without_closed_tag
          (records_of (aggregate_trades_to_positions quicksort df)))).
Proof.
  intros Hne. apply key_eqb_neq in Hne. split.
  - apply project_drop_key. exact Hne.
  - eapply perm_trans; [apply (@output_for_key quicksort key)|].
    rewrite (@project_drop_key key other df Hne).
    apply Permutation_sym. apply (@output_for_key quicksort key).
Qed.

Lemma keys_independent_witness :
  ("ETHUSDT", "BOTH") <> ("BTCUSDT", "BOTH") /\
  project ("ETHUSDT", "BOTH")
    (run_fold (drop_key ("BTCUSDT", "BOTH") fills_two_symbols)) =
  project ("ETHUSDT", "BOTH") (run_fold fills_two_symbols) /\
  Permutation
    (records_for ("ETHUSDT", "BOTH")
       (map without_closed_tag
          (records_of (aggregate_trades_to_positions reversing
                         (drop_key ("BTCUSDT", "BOTH") fills_two_symbols)))))
    (records_for ("ETHUSDT", "BOTH")
       (map without_closed_tag
          (records_of (aggregate_trades_to_positions reversing
                         fills_two_symbols)))).
Proof.
  assert (Hne : ("ETHUSDT", "BOTH") <> ("BTCUSDT", "BOTH")) by discriminate.
  split; [exact Hne|].
  exact (keys_independent reversing fills_two_symbols _ _ Hne).
Defined.

(** ** Fills that arrive later *)

Lemma insert_app (A : Type) (leb : A -> A -> bool) (a : A) (X Y : list A) :
  (forall y, In y Y -> leb a y = true) ->
  insert leb a (X ++ Y) = insert leb a X ++ Y.
Proof.
  intros HY. induction X as [|x X IH]; cbn.
  - destruct Y as [|y Y']; [reflexivity|].
    cbn. rewrite (HY y (or_introl eq_refl)). reflexivity.
  - destruct (leb a x); [reflexivity|]. rewrite IH. reflexivity.
Qed.

Lemma sort_app (A : Type) (leb : A -> A -> bool) (X Y : list A) :
  (forall x y, In x X -> In y Y -> leb x y = true) ->
  sort leb (X ++ Y) = sort leb X ++ sort leb Y.
Proof.
  intros H. induction X as [|x X IH]; [reflexivity|].
  cbn. rewrite IH by (intros; apply H; [right|]; assumption).
  apply insert_app. intros y Hy. apply H; [left; reflexivity|].
  exact (Permutation_in _ (sort_perm leb Y) Hy).
Qed.

Lemma fold_rows_app (l1 l2 : list Row.t) (acc : list Pos.t * dict) :
  fold_rows (l1 ++ l2) acc = bind (fold_rows l1 acc) (fold_rows l2).
Proof.
  revert acc. induction l1 as [|row l1 IH]; intros acc; [reflexivity|].
  cbn [app fold_rows]. destruct (process_row acc row); [apply IH | reflexivity].
Qed.

Lemma row_leb_of_time (a b : Row.t) :
  row_key a = row_key b -> (Row.time a < Row.time b)%Z -> row_leb a b = true.
Proof.
  unfold row_leb, key_compare, lex_compare, sort_key, row_key. cbn [fst snd].
  intros Hk Ht. injection Hk as Hs Hp. rewrite Hs, Hp.
  rewrite !(order_compare_refl _ order_compare_string).
  apply Z.compare_lt_iff in Ht. rewrite Ht. reflexivity.
Qed.

(** The rows of a key, in the order of the loop, when later fills are
    added to the frame. *)
Lemma key_rows_app (key : Key) (df_old df_new : list Raw.t) :
  (forall a b, In a df_old -> In b df_new -> raw_key a = raw_key b ->
               (Raw.time a < Raw.time b)%Z) ->
  filter (is_key key) (sort row_leb (map normalize (df_old ++ df_new))) =
  filter (is_key key) (sort row_leb (map normalize df_old)) ++
  filter (is_key key) (sort row_leb (map normalize df_new)).
Proof.
  intros Hlater.
  rewrite !(@filter_sort _ row_leb row_leb_total row_leb_trans).
  rewrite map_app, filter_app. apply sort_app.
  intros x y Hx Hy. apply filter_In in Hx, Hy.
  destruct Hx as [Hx Hkx], Hy as [Hy Hky].
  apply in_map_iff in Hx, Hy.
  destruct Hx as [a [<- Ha]], Hy as [b [<- Hb]].
  unfold is_key in Hkx, Hky. apply key_eqb_eq in Hkx, Hky.
  apply row_leb_of_time; [congruence|].
  apply (Hlater a b Ha Hb).
  change (row_key (normalize a) = row_key (normalize b)). congruence.
Qed.

(** X7.  Running again on a frame to which later fills were added does
    not change the positions already closed: when every added fill is
    later than the old fills of its key, the closed records of each key
    from the old frame are the first closed records of that key from the
    larger frame. *)
Theorem later_fills_keep_closed_records (df_old df_new : list Raw.t) (key : Key) :
  (forall a b, In a df_old -> In b df_new -> raw_key a = raw_key b ->
               (Raw.time a < Raw.time b)%Z) ->
  exists more,
    records_for key (fst (run_fold (df_old ++ df_new))) =
    records_for key (fst (run_fold df_old)) ++ more.
Proof.
  intros Hlater.
  set (A := filter (is_key key) (sort row_leb (map normalize df_old))).
  set (B := filter (is_key key) (sort row_leb (map normalize df_new))).
  (* the old frame, and its rows of the key alone *)
  destruct (run_fold_ok df_old) as [Hold _].
  destruct (@fold_rows_project key (sort row_leb (map normalize df_old))
              ([], []) ([], []) dict_ok_nil dict_ok_nil eq_refl)
    as [r1 [rA [Hr1 [HrA [_ HpA]]]]].
  fold A in HrA.
  (* the larger frame, and its rows of the key alone *)
  destruct (run_fold_ok (df_old ++ df_new)) as [Hall _].
  destruct (@fold_rows_project key
              (sort row_leb (map normalize (df_old ++ df_new)))
              ([], []) ([], []) dict_ok_nil dict_ok_nil eq_refl)
    as [r2 [rAB [Hr2 [HrAB [_ HpAB]]]]].
  rewrite (key_rows_app key df_old df_new Hlater) in HrAB. fold A B in HrAB.
  unfold dict in *.
  rewrite Hold in Hr1. injection Hr1 as <-.
  rewrite Hall in Hr2. injection Hr2 as <-.
  rewrite fold_rows_app, HrA in HrAB. cbn [bind] in HrAB.
  destruct rA as [pA sA].
  assert (HokA : dict_ok sA).
  { destruct (fold_rows_ok A [] dict_ok_nil) as [e [s' [He [Hok' _]]]].
    cbn [app] in He. unfold dict in *. rewrite HrA in He.
    injection He as -> ->. exact Hok'. }
  destruct (fold_rows_ok B pA HokA) as [e [s' [He _]]].
  unfold dict in *. rewrite He in HrAB. injection HrAB as <-.
  exists (records_for key e).
  apply (f_equal fst) in HpA, HpAB.
  etransitivity; [exact HpAB|]. cbn [project fst].
  rewrite records_for_app. f_equal. symmetry. exact HpA.
Qed.

Lemma later_fills_keep_closed_records_witness :
  (forall a b, In a fills_round_trip -> In b fills_later ->
               raw_key a = raw_key b -> (Raw.time a < Raw.time b)%Z) /\
  exists more,
    records_for ("BTCUSDT", "BOTH")
      (fst (run_fold (fills_round_trip ++ fills_later))) =
    records_for ("BTCUSDT", "BOTH") (fst (run_fold fills_round_trip)) ++ more.
Proof.
  assert (H : forall a b, In a fills_round_trip -> In b fills_later ->
                          raw_key a = raw_key b -> (Raw.time a < Raw.time b)%Z).
  { intros a b [<-|[<-|[]]] [<-|[]] _; reflexivity. }
  split; [exact H|].
  exact (later_fills_keep_closed_records fills_round_trip fills_later
           ("BTCUSDT", "BOTH") H).
Defined.

(** * The watermark (state_manager.py) *)

Lemma fold_max_spec (l : list Z) (x : Z) :
  (x <= fold_left Z.max l x)%Z /\
  (forall y, In y l -> (y <= fold_left Z.max l x)%Z) /\
  (fold_left Z.max l x = x \/ In (fold_left Z.max l x) l).
Proof.
  revert x. induction l as [|a l IH]; intros x; cbn [fold_left].
  - split; [lia | split; [intros y [] | left; reflexivity]].
  - destruct (IH (Z.max x a)) as [H1 [H2 H3]]. split; [lia | split].
    + intros y [<-|Hy]; [lia | exact (H2 y Hy)].
    + destruct H3 as [H3|H3]; [|right; right; exact H3].
      rewrite H3. destruct (Z.max_spec x a) as [[_ ->]|[_ ->]];
        [right; left; reflexivity | left; reflexivity].
Qed.

Lemma max_of_spec (l : list Z) (m : Z) :
  max_of l = Some m -> (forall y, In y l -> (y <= m)%Z) /\ In m l.
Proof.
  destruct l as [|x l]; [discriminate|]. cbn [max_of]. intros [= <-].
  destruct (fold_max_spec l x) as [H1 [H2 H3]]. split.
  - intros y [<-|Hy]; [exact H1 | exact (H2 y Hy)].
  - destruct H3 as [->|H3]; [left; reflexivity | right; exact H3].
Qed.

Lemma max_of_nonempty (l : list Z) : l <> [] -> exists m, max_of l = Some m.
Proof. destruct l; [congruence | eexists; reflexivity]. Qed.

Lemma ids_get_set_same (s : string) (v : Z) (ids : list (string * Z)) :
  ids_get s (ids_set s v ids) = Some v.
Proof.
  induction ids as [|[s' w] ids IH]; cbn.
  - rewrite String.eqb_refl. reflexivity.
  - destruct (s =? s')%string eqn:E; cbn; rewrite E; [reflexivity | exact IH].
Qed.

Lemma ids_get_set_other (s s' : string) (v : Z) (ids : list (string * Z)) :
  s' <> s -> ids_get s' (ids_set s v ids) = ids_get s' ids.
Proof.
  intros Hne. apply String.eqb_neq in Hne.
  induction ids as [|[s0 w] ids IH]; cbn.
  - rewrite Hne. reflexivity.
  - destruct (s =? s0)%string eqn:E; cbn.
    + apply String.eqb_eq in E. subst s0. rewrite Hne. reflexivity.
    + rewrite IH. reflexivity.
Qed.

Lemma batch_ids_in (symbol : string) (trades : list Raw.t) (i : Z) :
  In i (batch_ids symbol trades) <->
  exists t, In t trades /\ Raw.symbol t = symbol /\ Raw.id t = i.
Proof.
  unfold batch_ids. rewrite in_map_iff. split.
  - intros [t [Hi Ht]]. apply filter_In in Ht. destruct Ht as [Ht Hs].
    apply String.eqb_eq in Hs. exists t. auto.
  - intros [t [Ht [Hs Hi]]]. exists t. split; [exact Hi|].
    apply filter_In. split; [exact Ht | apply String.eqb_eq; exact Hs].
Qed.

(** The loop over the symbols: a symbol it visits gets the largest id of
    its trades, whatever it had; the others keep what they had. *)
Lemma update_ids_spec (symbols : list string) (trades : list Raw.t) :
  (forall s, In s symbols -> exists t, In t trades /\ Raw.symbol t = s) ->
  forall ids, exists ids',
    update_ids symbols trades ids = Some ids' /\
    forall s,
      (In s symbols -> ids_get s ids' = max_of (batch_ids s trades)) /\
      (~ In s symbols -> ids_get s ids' = ids_get s ids).
Proof.
  induction symbols as [|symbol symbols IH]; intros Hsym ids.
  - exists ids. split; [reflexivity|]. intros s. split; [intros [] | reflexivity].
  - cbn [update_ids]. fold (batch_ids symbol trades).
    destruct (Hsym symbol (or_introl eq_refl)) as [t [Ht Hs]].
    destruct (max_of_nonempty (batch_ids symbol trades)) as [m Hm].
    { intros Hnil. assert (Hin : In (Raw.id t) (batch_ids symbol trades))
        by (apply batch_ids_in; exists t; auto).
      rewrite Hnil in Hin. exact Hin. }
    rewrite Hm.
    destruct (IH (fun s Hin => Hsym s (or_intror Hin)) (ids_set symbol m ids))
      as [ids' [Hrun Hget]].
    exists ids'. split; [exact Hrun|]. intros s.
    destruct (Hget s) as [Hin Hout].
    destruct (in_dec String.string_dec s symbols) as [Hs'|Hs'].
    + split; [intros _; exact (Hin Hs') | intros Hn; contradiction Hn; right; exact Hs'].
    + rewrite (Hout Hs'). split.
      * intros [->|Hs'']; [|contradiction]. rewrite ids_get_set_same. symmetry. exact Hm.
      * intros Hn. apply ids_get_set_other. intros ->. apply Hn. left. reflexivity.
Qed.

Lemma symbol_set_in (trades : list Raw.t) (s : string) :
  In s (symbol_set trades) <-> exists t, In t trades /\ Raw.symbol t = s.
Proof.
  unfold symbol_set. rewrite nodup_In, in_map_iff. split; intros [t [H1 H2]]; eauto.
Qed.

(** What [update_watermark] returns for a batch that is not empty. *)
Lemma update_watermark_nonempty (state : Watermark.t) (trades : list Raw.t) :
  trades <> [] ->
  exists max_time ids',
    max_of (map Raw.time trades) = Some max_time /\
    update_watermark state trades =
      Some (Watermark.mk (Some (Z.max (get_last_trade_time state) max_time))
                         (Some ids')) /\
    forall s,
      ((exists t, In t trades /\ Raw.symbol t = s) ->
         ids_get s ids' = max_of (batch_ids s trades)) /\
      ((forall t, In t trades -> Raw.symbol t <> s) ->
         Some (match ids_get s ids' with Some i => i | None => 0%Z end) =
         Some (get_symbol_last_id state s)).
Proof.
  intros Hne.
  destruct (max_of_nonempty (map Raw.time trades)) as [max_time Hmax].
  { destruct trades; [congruence | discriminate]. }
  set (ids := match Watermark.last_id_by_symbol state with
              | Some ids => ids | None => [] end).
  destruct (update_ids_spec (symbol_set trades) trades
              (fun s Hs => proj1 (symbol_set_in trades s) Hs) ids)
    as [ids' [Hrun Hget]].
  exists max_time, ids'. split; [exact Hmax|]. split.
  - unfold update_watermark. destruct trades as [|t ts]; [congruence|].
    rewrite Hmax. fold ids. rewrite Hrun. reflexivity.
  - intros s. destruct (Hget s) as [Hin Hout]. split.
    + intros Hex. apply Hin. apply symbol_set_in. exact Hex.
    + intros Hnone. rewrite Hout.
      * unfold get_symbol_last_id, ids.
        destruct (Watermark.last_id_by_symbol state); reflexivity.
      * intros Hs. apply symbol_set_in in Hs. destruct Hs as [t [Ht Hst]].
        exact (Hnone t Ht Hst).
Qed.

(** X11.  The time watermark never moves backwards and covers the batch:
    after [update_watermark] it is the larger of the old watermark and the
    latest trade time of the batch, and the call does not raise. *)
Theorem watermark_time_covers_batch (state : Watermark.t) (trades : list Raw.t) :
  exists state',
    update_watermark state trades = Some state' /\
    (get_last_trade_time state <= get_last_trade_time state')%Z /\
    (forall t, In t trades -> (Raw.time t <= get_last_trade_time state')%Z) /\
    (get_last_trade_time state' = get_last_trade_time state \/
     exists t, In t trades /\ get_last_trade_time state' = Raw.time t).
Proof.
  destruct trades as [|t0 ts] eqn:Et.
  - exists state. split; [reflexivity|]. split; [lia|].
    split; [intros t [] | left; reflexivity].
  - rewrite <- Et.
    destruct (update_watermark_nonempty state trades) as [m [ids' [Hm [Hrun _]]]].
    { rewrite Et. discriminate. }
    eexists. split; [exact Hrun|].
    destruct (max_of_spec _ _ Hm) as [Hle Hin]. cbn [get_last_trade_time Watermark.last_trade_time_ms].
    split; [lia | split].
    + intros t Ht. specialize (Hle (Raw.time t) (in_map Raw.time _ _ Ht)). lia.
    + destruct (Z.max_spec (get_last_trade_time state) m) as [[_ ->]|[_ ->]].
      * right. apply in_map_iff in Hin. destruct Hin as [t [Ht Hin]]. exists t. auto.
      * left. reflexivity.
Qed.

(** X12.  The id watermark of a symbol follows the batch: a symbol with
    trades in the batch gets the largest id among them, whatever its
    watermark was before (so it can move backwards); every other symbol
    keeps its watermark. *)
Theorem watermark_ids_follow_batch (state : Watermark.t) (trades : list Raw.t)
    (symbol : string) :
  exists state',
    update_watermark state trades = Some state' /\
    ((exists t, In t trades /\ Raw.symbol t = symbol) ->
       (forall t, In t trades -> Raw.symbol t = symbol ->
                  (Raw.id t <= get_symbol_last_id state' symbol)%Z) /\
       (exists t, In t trades /\ Raw.symbol t = symbol /\
                  get_symbol_last_id state' symbol = Raw.id t)) /\
    ((forall t, In t trades -> Raw.symbol t <> symbol) ->
       get_symbol_last_id state' symbol = get_symbol_last_id state symbol).
Proof.
  destruct trades as [|t0 ts] eqn:Et.
  - exists state. split; [reflexivity|]. split; [intros [t [[] _]] | reflexivity].
  - rewrite <- Et.
    destruct (update_watermark_nonempty state trades) as [m [ids' [_ [Hrun Hget]]]].
    { rewrite Et. discriminate. }
    eexists. split; [exact Hrun|].
    destruct (Hget symbol) as [Hin Hout].
    unfold get_symbol_last_id at 1 2 3. cbn [Watermark.last_id_by_symbol]. split.
    + intros Hex. specialize (Hin Hex).
      destruct (max_of (batch_ids symbol trades)) as [mi|] eqn:Emi.
      * destruct (max_of_spec _ _ Emi) as [Hle Hmem]. rewrite Hin. split.
        -- intros t Ht Hs. apply Hle. apply batch_ids_in. exists t. auto.
        -- apply batch_ids_in in Hmem. destruct Hmem as [t [Ht [Hs Hi]]].
           exists t. auto.
      * destruct Hex as [t [Ht Hs]].
        assert (Hi : In (Raw.id t) (batch_ids symbol trades))
          by (apply batch_ids_in; exists t; auto).
        destruct (batch_ids symbol trades); [destruct Hi | discriminate Emi].
    + intros Hnone. specialize (Hout Hnone). injection Hout as Hout. exact Hout.
Qed.

(** X13.  The id watermarks do not depend on the order in which the set
    of the batch's symbols is iterated: two enumerations of the symbols of
    the batch give dictionaries with the same id for every symbol. *)
Theorem update_ids_any_order (symbols1 symbols2 : list string)
    (trades : list Raw.t) (ids : list (string * Z)) :
  (forall s, In s symbols1 <-> exists t, In t trades /\ Raw.symbol t = s) ->
  (forall s, In s symbols2 <-> exists t, In t trades /\ Raw.symbol t = s) ->
  exists ids1 ids2,
    update_ids symbols1 trades ids = Some ids1 /\
    update_ids symbols2 trades ids = Some ids2 /\
    forall s, ids_get s ids1 = ids_get s ids2.
Proof.
  intros H1 H2.
  destruct (update_ids_spec symbols1 trades (fun s Hs => proj1 (H1 s) Hs) ids)
    as [ids1 [Hr1 Hg1]].
  destruct (update_ids_spec symbols2 trades (fun s Hs => proj1 (H2 s) Hs) ids)
    as [ids2 [Hr2 Hg2]].
  exists ids1, ids2. split; [exact Hr1 | split; [exact Hr2|]].
  intros s. destruct (in_dec String.string_dec s symbols1) as [Hin|Hout].
  - rewrite (proj1 (Hg1 s) Hin).
    rewrite (proj1 (Hg2 s) (proj2 (H2 s) (proj1 (H1 s) Hin))). reflexivity.
  - rewrite (proj2 (Hg1 s) Hout). symmetry. apply (proj2 (Hg2 s)).
    intros Hin2. apply Hout. apply H1. apply H2. exact Hin2.
Qed.

(** * Requests with retry (binance_client.py) *)

Lemma retryable_fails (s : Z) : retryable_status s = true -> (400 <=? s)%Z = true.
Proof.
  unfold retryable_status. rewrite !orb_true_iff, !Z.eqb_eq, !Z.leb_le. lia.
Qed.

Lemma raises_fails (s : Z) : raises_for_status s = true -> (400 <=? s)%Z = true.
Proof. unfold raises_for_status. rewrite andb_true_iff. tauto. Qed.

Lemma not_raises_succeeds (s : Z) :
  retryable_status s = false -> raises_for_status s = false -> (s < 400)%Z.
Proof.
  unfold retryable_status, raises_for_status.
  rewrite !orb_false_iff, andb_false_iff, !Z.leb_gt, Z.ltb_ge. lia.
Qed.

(** The loop from attempt [attempt] on. *)
Lemma retry_loop_spec (net : nat -> Outcome) (max_retries : nat) :
  forall (remaining attempt : nat) (slept0 : list nat),
    (attempt + remaining = max_retries)%nat ->
    let run := retry_loop net max_retries remaining attempt slept0 in
    match retried run with
    | Returned s =>
        (s < 400)%Z /\
        exists n, (attempt <= n < max_retries)%nat /\
                  net n = Responded s /\ attempts run = S n /\
                  (forall m, (attempt <= m < n)%nat -> attempt_fails (net m) = true) /\
                  slept run = slept0 ++ seq attempt (n - attempt)
    | RuntimeError =>
        (forall m, (attempt <= m < max_retries)%nat -> attempt_fails (net m) = true) /\
        attempts run = max_retries
    end.
Proof.
  induction remaining as [|remaining IH]; intros attempt slept0 Hsum run.
  - cbn in run. subst run. cbn. split; [intros m Hm; lia | lia].
  - assert (Hcont : forall sl,
              let run' := retry_loop net max_retries remaining (attempt + 1) sl in
              attempt_fails (net attempt) = true ->
              sl = slept0 ++ [attempt] ->
              match retried run' with
              | Returned s =>
                  (s < 400)%Z /\
                  exists n, (attempt <= n < max_retries)%nat /\
                            net n = Responded s /\ attempts run' = S n /\
                            (forall m, (attempt <= m < n)%nat ->
                                       attempt_fails (net m) = true) /\
                            slept run' = slept0 ++ seq attempt (n - attempt)
              | RuntimeError =>
                  (forall m, (attempt <= m < max_retries)%nat ->
                             attempt_fails (net m) = true) /\
                  attempts run' = max_retries
              end).
    { intros sl run' Hfail ->. subst run'.
      specialize (IH (attempt + 1)%nat (slept0 ++ [attempt]) ltac:(lia)).
      cbv zeta in IH.
      destruct (retried (retry_loop net max_retries remaining (attempt + 1)
                           (slept0 ++ [attempt]))) as [s|].
      - destruct IH as [Hs [n [Hn [Hnet [Hatt [Hprev Hsl]]]]]].
        split; [exact Hs|]. exists n. split; [lia|]. split; [exact Hnet|].
        split; [exact Hatt|]. split.
        + intros m Hm. destruct (Nat.eq_dec m attempt) as [->|Hne];
            [exact Hfail | apply Hprev; lia].
        + rewrite Hsl, <- app_assoc. f_equal.
          replace (n - attempt)%nat with (S (n - (attempt + 1))) by lia.
          cbn [seq app]. f_equal. f_equal. lia.
      - destruct IH as [Hall Hatt]. split; [|exact Hatt].
        intros m Hm. destruct (Nat.eq_dec m attempt) as [->|Hne];
          [exact Hfail | apply Hall; lia]. }
    assert (Hexc : attempt_fails (net attempt) = true ->
              let run' :=
                if (attempt + 1 <? max_retries)%nat
                then retry_loop net max_retries remaining (attempt + 1)
                       (slept0 ++ [attempt])
                else mkRetryRun RuntimeError (attempt + 1) slept0 in
              match retried run' with
              | Returned s =>
                  (s < 400)%Z /\
                  exists n, (attempt <= n < max_retries)%nat /\
                            net n = Responded s /\ attempts run' = S n /\
                            (forall m, (attempt <= m < n)%nat ->
                                       attempt_fails (net m) = true) /\
                            slept run' = slept0 ++ seq attempt (n - attempt)
              | RuntimeError =>
                  (forall m, (attempt <= m < max_retries)%nat ->
                             attempt_fails (net m) = true) /\
                  attempts run' = max_retries
              end).
    { intros Hfail. cbv zeta.
      destruct (attempt + 1 <? max_retries)%nat eqn:E.
      - exact (Hcont _ Hfail eq_refl).
      - apply Nat.ltb_ge in E. cbn. split; [|lia].
        intros m Hm. replace m with attempt by lia. exact Hfail. }
    subst run. cbn [retry_loop].
    destruct (net attempt) as [s|] eqn:Enet.
    + destruct (retryable_status s) eqn:Er.
      * apply Hcont; [cbn; exact (retryable_fails s Er) | reflexivity].
      * destruct (raises_for_status s) eqn:Eh.
        -- apply Hexc. cbn. exact (raises_fails s Eh).
        -- cbn. split; [exact (not_raises_succeeds s Er Eh)|].
           exists attempt. split; [lia|]. split; [exact Enet|].
           split; [lia|]. split; [intros m Hm; lia|].
           rewrite Nat.sub_diag. cbn. rewrite app_nil_r. reflexivity.
    + apply Hexc. reflexivity.
Qed.

(** X14.  When [request_with_retry] returns a response, its status code
    is below 400, it is the response of the first attempt that neither
    raised nor answered with a code of 400 or more, and the call slept
    once after each attempt before it. *)
Theorem request_returns_first_success (net : nat -> Outcome) (max_retries : nat)
    (s : Z) :
  retried (request_with_retry net max_retries) = Returned s ->
  (s < 400)%Z /\
  exists n, (n < max_retries)%nat /\
            net n = Responded s /\
            attempts (request_with_retry net max_retries) = S n /\
            (forall m, (m < n)%nat -> attempt_fails (net m) = true) /\
            slept (request_with_retry net max_retries) = seq 0 n.
Proof.
  intros Hret. unfold request_with_retry in *.
  pose proof (retry_loop_spec net max_retries max_retries 0 [] eq_refl) as H.
  cbv zeta in H. rewrite Hret in H.
  destruct H as [Hs [n [Hn [Hnet [Hatt [Hprev Hsl]]]]]].
  split; [exact Hs|]. exists n. split; [lia|]. split; [exact Hnet|].
  split; [exact Hatt|]. split.
  - intros m Hm. apply Hprev. lia.
  - rewrite Hsl, Nat.sub_0_r. reflexivity.
Qed.

Lemma request_returns_first_success_witness :
  retried (request_with_retry net_recovers 5) = Returned 200 /\
  attempts (request_with_retry net_recovers 5) = 3%nat /\
  slept (request_with_retry net_recovers 5) = [0; 1]%nat.
Proof.
  destruct (request_returns_first_success net_recovers 5 200 eq_refl)
    as [_ [n [_ [_ [Hatt [_ Hsl]]]]]].
  split; [reflexivity|]. split; reflexivity.
Defined.

(** X15.  [request_with_retry] raises [RuntimeError] exactly when each of
    the [max_retries] attempts raised or was answered with a status code
    of 400 or more: a client error such as 404 is retried like a rate
    limit or a server error.  It then made [max_retries] requests. *)
Theorem request_raises_iff_all_fail (net : nat -> Outcome) (max_retries : nat) :
  (retried (request_with_retry net max_retries) = RuntimeError <->
   forall m, (m < max_retries)%nat -> attempt_fails (net m) = true) /\
  (retried (request_with_retry net max_retries) = RuntimeError ->
   attempts (request_with_retry net max_retries) = max_retries).
Proof.
  unfold request_with_retry.
  pose proof (retry_loop_spec net max_retries max_retries 0 [] eq_refl) as H.
  cbv zeta in H.
  destruct (retried (retry_loop net max_retries max_retries 0 [])) as [s|].
  - destruct H as [Hs [n [Hn [Hnet _]]]]. split; [split|]; try discriminate.
    intros Hall. specialize (Hall n ltac:(lia)). rewrite Hnet in Hall.
    cbn in Hall. apply Z.leb_le in Hall. lia.
  - destruct H as [Hall Hatt]. split; [split|].
    + intros _ m Hm. apply Hall. lia.
    + reflexivity.
    + intros _. exact Hatt.
Qed.

Lemma request_raises_iff_all_fail_witness :
  (forall m, (m < 5)%nat -> attempt_fails (net_not_found m) = true) /\
  retried (request_with_retry net_not_found 5) = RuntimeError /\
  attempts (request_with_retry net_not_found 5) = 5%nat.
Proof.
  assert (Hall : forall m, (m < 5)%nat -> attempt_fails (net_not_found m) = true)
    by (intros m _; reflexivity).
  destruct (request_raises_iff_all_fail net_not_found 5) as [Hiff Hatt].
  split; [exact Hall|].
  pose proof (proj2 Hiff Hall) as Hraise.
  split; [exact Hraise | exact (Hatt Hraise)].
Defined.

(** * The symbols to query (binance_client.py) *)

Lemma string_leb_total (a b : string) :
  String.leb a b = false -> String.leb b a = true.
Proof.
  intros H. destruct (String.leb_total a b) as [H'|H']; [congruence | exact H'].
Qed.

Lemma string_leb_trans (a b c : string) :
  String.leb a b = true -> String.leb b c = true -> String.leb a c = true.
Proof.
  unfold String.leb.
  destruct (String.compare a b) eqn:E1; try discriminate;
    destruct (String.compare b c) eqn:E2; try discriminate; intros _ _.
  - apply String.compare_eq_iff in E1. rewrite E1, E2. reflexivity.
  - apply String.compare_eq_iff in E1. rewrite E1, E2. reflexivity.
  - apply String.compare_eq_iff in E2. rewrite <- E2, E1. reflexivity.
  - rewrite (cmp_lt_trans order_compare_string _ _ _ E1 E2). reflexivity.
Qed.

Lemma string_leb_neq_ltb (a b : string) :
  String.leb a b = true -> a <> b -> String.ltb a b = true.
Proof.
  unfold String.leb, String.ltb. intros H Hne.
  destruct (String.compare a b) eqn:E; try discriminate; [|reflexivity].
  apply String.compare_eq_iff in E. contradiction.
Qed.

Lemma sorted_nodup_strict (l : list string) :
  StronglySorted (le_of String.leb) l -> NoDup l ->
  StronglySorted (fun a b => String.ltb a b = true) l.
Proof.
  induction 1 as [|x l Hs IH Hall]; intros Hnd; [constructor|].
  inversion Hnd as [|? ? Hni Hnd']; subst. constructor; [exact (IH Hnd')|].
  rewrite Forall_forall in *. intros y Hy.
  apply string_leb_neq_ltb; [exact (Hall y Hy)|].
  intros ->. exact (Hni Hy).
Qed.

(** X16.  The list of symbols to query is in strictly ascending order, so
    no symbol is queried twice, and it holds exactly the active symbols
    and the symbols of the fills file, when that file can be read. *)
Theorem symbols_to_query_sorted_union (active_symbols : list string)
    (csv_symbols : option (list (option string))) :
  StronglySorted (fun a b => String.ltb a b = true)
    (get_symbols_to_query active_symbols csv_symbols) /\
  forall s,
    In s (get_symbols_to_query active_symbols csv_symbols) <->
    In s active_symbols \/
    exists column, csv_symbols = Some column /\ In (Some s) column.
Proof.
  unfold get_symbols_to_query. split.
  - apply sorted_nodup_strict.
    + apply (@sort_sorted _ String.leb string_leb_total string_leb_trans).
    + apply (Permutation_NoDup (Permutation_sym (sort_perm String.leb _))).
      apply NoDup_nodup.
  - intros s. split.
    + intros Hin. apply (Permutation_in _ (sort_perm String.leb _)) in Hin.
      apply nodup_In, in_app_or in Hin. destruct Hin as [Hin|Hin]; [left; exact Hin|].
      destruct csv_symbols as [column|]; [|destruct Hin].
      right. exists column. split; [reflexivity|].
      apply in_flat_map in Hin. destruct Hin as [[c|] [Hc Hin]]; [|destruct Hin].
      destruct Hin as [<-|[]]. exact Hc.
    + intros Hin. apply (Permutation_in _ (Permutation_sym (sort_perm String.leb _))).
      apply nodup_In, in_or_app. destruct Hin as [Hin|[column [-> Hin]]];
        [left; exact Hin | right].
      apply in_flat_map. exists (Some s). split; [exact Hin | left; reflexivity].
Qed.

Lemma symbols_to_query_sorted_union_witness :
  get_symbols_to_query ["ETHUSDT"; "BTCUSDT"]
    (Some [Some "BTCUSDT"; None; Some "ADAUSDT"; Some "BTCUSDT"]) =
    ["ADAUSDT"; "BTCUSDT"; "ETHUSDT"] /\
  In "ADAUSDT"
    (get_symbols_to_query ["ETHUSDT"; "BTCUSDT"]
       (Some [Some "BTCUSDT"; None; Some "ADAUSDT"; Some "BTCUSDT"])).
Proof.
  split; [reflexivity|].
  apply (proj2 (symbols_to_query_sorted_union ["ETHUSDT"; "BTCUSDT"]
                  (Some [Some "BTCUSDT"; None; Some "ADAUSDT"; Some "BTCUSDT"]))).
  right. eexists. split; [reflexivity|]. right. right. left. reflexivity.
Defined.

(** * After the aggregation (output_writer.py) *)

Lemma count_status_combine (positions : list Pos.t) (state : dict) :
  Forall (fun r => exists st, r = closed_record st) positions ->
  state <> [] ->
  length (filter (has_status OPEN)
            (rows (combine positions (open_positions_of state)))) = length state /\
  length (filter (has_status CLOSED)
            (rows (combine positions (open_positions_of state)))) = length positions.
Proof.
  intros Hrec Hne. rewrite rows_combine.
  destruct state as [|kv state]; [contradiction Hne; reflexivity|].
  set (opens := open_positions_of (kv :: state)).
  change (match opens with
          | [] => positions
          | _ :: _ => map (Pos.set_status (Some CLOSED)) positions ++ opens
          end)
    with (map (Pos.set_status (Some CLOSED)) positions ++ opens).
  rewrite !filter_app, !length_app.
  assert (Ho1 : filter (has_status OPEN) opens = opens).
  { subst opens. generalize (kv :: state) as s. unfold open_positions_of.
    induction s as [|[k st] s IH]; [reflexivity|]. cbn [map filter].
    change (has_status OPEN (open_record (snd (k, st)))) with true.
    cbn iota. rewrite IH. reflexivity. }
  assert (Ho2 : filter (has_status CLOSED) opens = []).
  { subst opens. generalize (kv :: state) as s. unfold open_positions_of.
    induction s as [|[k st] s IH]; [reflexivity|]. cbn [map filter].
    change (has_status CLOSED (open_record (snd (k, st)))) with false.
    cbn iota. exact IH. }
  assert (Hc1 : forall l, filter (has_status OPEN)
                  (map (Pos.set_status (Some CLOSED)) l) = []).
  { induction l as [|r l IH]; [reflexivity|]. exact IH. }
  assert (Hc2 : forall l, filter (has_status CLOSED)
                  (map (Pos.set_status (Some CLOSED)) l) =
                map (Pos.set_status (Some CLOSED)) l).
  { induction l as [|r l IH]; [reflexivity|].
    cbn [map filter]. change (has_status CLOSED (Pos.set_status (Some CLOSED) r))
      with true. cbn iota. rewrite IH. reflexivity. }
  rewrite Ho1, Ho2, Hc1, Hc2, length_map. subst opens.
  unfold open_positions_of. rewrite length_map. cbn [length]. split; lia.
Qed.

(** X17.  After an aggregation the positions file is always written, with
    one row for each closed record and each live state.  The summary
    counts the live states as open and the closed records as closed when a
    position is open at the end of the stream; when none is, the frame has
    no status column and [format_positions_summary] raises [KeyError]. *)
Theorem after_aggregation (quicksort : SortKind) (df : list Raw.t)
    (out : DataFrame) :
  aggregate_trades_to_positions quicksort df = Ok out ->
  write_positions_csv out =
    (Some out, (length (fst (run_fold df)) + length (snd (run_fold df)))%nat) /\
  format_positions_summary out =
    match snd (run_fold df) with
    | [] => SummaryKeyError false
    | _ :: _ => SummaryCounts (length (snd (run_fold df)))
                              (length (fst (run_fold df)))
    end.
Proof.
  intros Hagg.
  destruct (aggregate_unfold quicksort df) as [positions [state [Hfold [_ [Hrec [Hne Hagg']]]]]].
  specialize (Hne (@aggregate_ok_nonempty quicksort _ _ Hagg)).
  destruct (run_fold_ok df) as [Hrun _].
  unfold dict in *. rewrite Hfold in Hrun. injection Hrun as <-. cbn [fst snd].
  assert (Hne' : positions <> [] \/ open_positions_of state <> []).
  { destruct Hne as [H|H]; [left; exact H | right].
    destruct state; [contradiction H; reflexivity | discriminate]. }
  rewrite Hagg',
    (@sort_values_open_time_ok quicksort positions (open_positions_of state) Hne')
    in Hagg.
  injection Hagg as <-.
  set (sorted := sort open_time_leb
                  (arranges quicksort
                     (rows (combine positions (open_positions_of state))))).
  assert (Hperm : Permutation sorted
                    (rows (combine positions (open_positions_of state))))
    by apply final_sort_perm.
  assert (Hlen : length sorted = (length positions + length state)%nat).
  { rewrite (Permutation_length Hperm), rows_combine.
    unfold open_positions_of.
    destruct state as [|kv state]; cbn [map].
    - cbn [length]. lia.
    - rewrite length_app, length_map. cbn [length]. rewrite length_map.
      reflexivity. }
  assert (Hempty : empty
            {| columns := columns (combine positions (open_positions_of state));
               rows := sorted |}
          = false).
  { unfold empty. cbn [rows columns]. clearbody sorted.
    destruct sorted as [|r rs].
    - cbn [length] in Hlen. destruct positions, state; cbn [length] in Hlen;
        try lia. destruct Hne as [H|H]; contradiction H; reflexivity.
    - pose proof (open_time_label_combine positions (open_positions_of state)) as Hl.
      destruct (columns (combine positions (open_positions_of state))).
      + cbn in Hl. destruct positions; [|discriminate Hl].
        destruct (open_positions_of state); [|discriminate Hl].
        destruct Hne' as [H|H]; contradiction H; reflexivity.
      + reflexivity. }
  split.
  - unfold write_positions_csv. rewrite Hempty. cbn [rows]. rewrite Hlen. reflexivity.
  - unfold format_positions_summary. rewrite Hempty. cbn [rows columns].
    rewrite status_label_combine.
    destruct state as [|kv state]; [reflexivity|].
    rewrite (Permutation_length (@Permutation_filter _ (has_status OPEN) _ _ Hperm)),
      (Permutation_length (@Permutation_filter _ (has_status CLOSED) _ _ Hperm)).
    destruct (count_status_combine positions (kv :: state) Hrec ltac:(discriminate))
      as [Ho Hc].
    rewrite Ho, Hc. reflexivity.
Qed.

Lemma after_aggregation_witness :
  exists out,
    aggregate_trades_to_positions stable fills_round_trip = Ok out /\
    format_positions_summary out = SummaryKeyError false /\
    fst (write_positions_csv out) = Some out.
Proof.
  eexists. split; [vm_compute; reflexivity|].
  destruct (after_aggregation stable fills_round_trip _ ltac:(vm_compute; reflexivity))
    as [Hw Hs].
  split; [exact Hs | rewrite Hw; reflexivity].
Defined.

(** ** Examples for the watermark *)

Lemma watermark_time_covers_batch_witness :
  exists state',
    update_watermark (Watermark.mk (Some 5%Z) None) fills_round_trip = Some state' /\
    get_last_trade_time state' = 5%Z /\
    (forall t, In t fills_round_trip -> (Raw.time t <= get_last_trade_time state')%Z).
Proof.
  destruct (watermark_time_covers_batch (Watermark.mk (Some 5%Z) None)
              fills_round_trip) as [state' [Hrun [_ [Hcover _]]]].
  exists state'. split; [exact Hrun|]. split; [|exact Hcover].
  vm_compute in Hrun. injection Hrun as <-. reflexivity.
Defined.

Lemma watermark_ids_follow_batch_witness :
  exists state',
    update_watermark
      (Watermark.mk (Some 0%Z) (Some [("BTCUSDT", 100%Z); ("ETHUSDT", 7%Z)]))
      fills_round_trip = Some state' /\
    get_symbol_last_id state' "BTCUSDT" = 2%Z /\
    get_symbol_last_id state' "ETHUSDT" = 7%Z.
Proof.
  destruct (watermark_ids_follow_batch
              (Watermark.mk (Some 0%Z) (Some [("BTCUSDT", 100%Z); ("ETHUSDT", 7%Z)]))
              fills_round_trip "ETHUSDT") as [state' [Hrun [_ Hkeep]]].
  exists state'. split; [exact Hrun|]. split.
  - vm_compute in Hrun. injection Hrun as <-. reflexivity.
  - rewrite Hkeep; [reflexivity|].
    intros t [<-|[<-|[]]]; discriminate.
Defined.

(** * More on the accumulators *)

Lemma Prim2SF_inj (x y : float) : Prim2SF x = Prim2SF y -> x = y.
Proof.
  intros H. rewrite <- (SF2Prim_Prim2SF x), <- (SF2Prim_Prim2SF y), H. reflexivity.
Qed.

(** Adding a float to [0.0] does not change its absolute value. *)
Lemma abs_add_zero_l (q : float) : abs (0 + q) = abs q.
Proof.
  apply Prim2SF_inj. rewrite !abs_spec, add_spec, Prim2SF_zero.
  destruct (Prim2SF q) as [s|s| |s m e]; try destruct s; reflexivity.
Qed.

Lemma ltb_irrefl (x : float) : (x <? x) = false.
Proof.
  rewrite ltb_spec. unfold SFltb, SFcompare.
  destruct (Prim2SF x) as [s|s| |s m e]; try destruct s; try reflexivity;
    rewrite Z.compare_refl, Pos.compare_cont_refl; reflexivity.
Qed.

(** X8.  The direction of a position is the sign of the signed quantity
    of the fill that opens it, not the side of the exposure: a fill that
    finds its key absent or flat and leaves it live opens a state whose
    direction is LONG when its signed quantity is positive and SHORT
    otherwise.  On the SHORT side a position opened by a SELL therefore
    has direction LONG. *)
Theorem opening_direction (positions : list Pos.t) (state : dict) (row : Row.t) :
  (dict_get (row_key row) state = None \/
   exists st, dict_get (row_key row) state = Some st /\
              is_flat (St.net_qty st) = true) ->
  is_flat (_signed_qty row) = false ->
  exists st' state',
    process_row (positions, state) row = Ok (positions, state') /\
    dict_get (row_key row) state' = Some st' /\
    St.open_time st' = Row.time row /\
    St.fills st' = 1%Z /\
    St.direction st' = (if 0 <? _signed_qty row then LONG else SHORT) /\
    (Row.positionSide row = Some "SHORT" -> Row.side row = "SELL" ->
     (0 <? Row.qty row) = true -> St.direction st' = LONG).
Proof.
  intros Hkey Hlive.
  destruct (process_row_key_step positions state row) as [state' [Hrun [Hget _]]].
  assert (Hbegin : begin_state (dict_get (row_key row) state) row =
                   new_state row (_signed_qty row)).
  { unfold begin_state. destruct Hkey as [-> | [st [-> ->]]]; reflexivity. }
  unfold key_step in Hrun, Hget. rewrite Hbegin in Hrun, Hget.
  unfold key_settle in Hrun, Hget. cbn [new_state St.net_qty] in Hrun, Hget.
  assert (Hcross : forall x, crosses_zero 0 x = false) by reflexivity.
  assert (Hflat : is_flat (0 + _signed_qty row) = false).
  { unfold is_flat in *. rewrite abs_add_zero_l. exact Hlive. }
  rewrite Hcross, Hflat in Hrun, Hget. cbn [fst snd] in Hrun, Hget.
  rewrite app_nil_r in Hrun.
  eexists _, state'. split; [exact Hrun | split; [exact Hget|]].
  split; [reflexivity | split; [reflexivity | split; [reflexivity|]]].
  intros Hps Hside Hqty. cbn [apply_fill St.direction new_state].
  unfold _signed_qty, Row.get_positionSide. rewrite Hps, Hside. cbn.
  rewrite Hqty. reflexivity.
Qed.

Lemma opening_direction_witness :
  exists st' state',
    process_row ([], []) row_short_sell = Ok ([], state') /\
    dict_get ("BTCUSDT", "SHORT") state' = Some st' /\
    St.direction st' = LONG.
Proof.
  destruct (opening_direction [] [] row_short_sell (or_introl eq_refl) eq_refl)
    as [st' [state' [Hrun [Hget [_ [_ [_ Hshort]]]]]]].
  exists st', state'. split; [exact Hrun | split; [exact Hget|]].
  exact (Hshort eq_refl eq_refl eq_refl).
Defined.

Lemma key_settle_max_covers_net (st0 : St.t) (row : Row.t) (q : float)
    (st' : St.t) :
  snd (key_settle st0 row q) = Some st' ->
  (St.max_abs_qty st' <? abs (St.net_qty st')) = false.
Proof.
  unfold key_settle.
  destruct (crosses_zero (St.net_qty st0) (St.net_qty st0 + q));
    destruct (is_flat (St.net_qty st0 + q)); cbn [snd];
    try discriminate; intros [= <-]; cbn.
  - apply ltb_irrefl.
  - unfold py_max.
    destruct (St.max_abs_qty st0 <? abs (St.net_qty st0 + q)) eqn:E;
      [apply ltb_irrefl | exact E].
Qed.

(** X9.  In an OPEN record [max_position_qty] is never below the size of
    the position that is still open: it is not strictly less than the
    absolute value of [net_qty]. *)
Theorem max_position_covers_net (quicksort : SortKind) (df : list Raw.t)
    (out : DataFrame) (r : Pos.t)
    (q : float) :
  aggregate_trades_to_positions quicksort df = Ok out ->
  In r (rows out) ->
  Pos.net_qty r = Some q ->
  (Pos.max_position_qty r <? abs q) = false.
Proof.
  intros Hagg Hin Hq.
  destruct (run_fold_ok df) as [Hrun [Hok Hrec]]. rewrite Forall_forall in Hrec.
  destruct (@aggregate_rows_cases quicksort df out r Hagg Hin)
    as [[r0 [Hr0 [-> | ->]]] | [k [st [Hkst ->]]]].
  - destruct (Hrec r0 Hr0) as [st ->]. discriminate Hq.
  - destruct (Hrec r0 Hr0) as [st ->]. discriminate Hq.
  - cbn in Hq. injection Hq as <-. cbn [open_record Pos.max_position_qty].
    apply (fold_rows_live
             (fun st => (St.max_abs_qty st <? abs (St.net_qty st)) = false)
             key_settle_max_covers_net _ ([], []) _
             ltac:(intros k' st' [=]) Hrun k).
    exact (@in_dict_get k st _ Hok Hkst).
Qed.

Lemma max_position_covers_net_witness :
  exists out r,
    aggregate_trades_to_positions stable fills_hedged = Ok out /\
    In r (rows out) /\ Pos.net_qty r = Some 1 /\
    (Pos.max_position_qty r <? abs 1) = false.
Proof.
  eexists _, _. split; [vm_compute; reflexivity|].
  split; [right; left; reflexivity|]. split; [reflexivity|].
  apply (max_position_covers_net stable fills_hedged _ _ 1
           ltac:(vm_compute; reflexivity) (or_intror (or_introl eq_refl)) eq_refl).
Defined.

(** ** Counting the fills *)

Lemma updates_del_same (key : Key) (P : St.t -> Prop) (d d' : dict) :
  updates key P d d' -> dict_del key d' = dict_del key d.
Proof.
  assert (Hset : forall v d0, dict_del key (dict_set key v d0) = dict_del key d0).
  { intros v d0. unfold dict_del. induction d0 as [|[k w] d0 IH]; cbn.
    - rewrite key_eqb_refl. reflexivity.
    - destruct (key_eqb key k) eqn:E; cbn; rewrite E; cbn; [reflexivity|].
      rewrite IH. reflexivity. }
  assert (Hdel : forall d0, dict_del key (dict_del key d0) = dict_del key d0).
  { intros d0. unfold dict_del. induction d0 as [|[k w] d0 IH]; cbn; [reflexivity|].
    destruct (key_eqb key k) eqn:E; cbn; [exact IH|]. rewrite E. cbn.
    rewrite IH. reflexivity. }
  induction 1 as [|d' v U IH HP|d' U IH].
  - reflexivity.
  - rewrite Hset. exact IH.
  - rewrite Hdel. exact IH.
Qed.

Lemma sum_state_fills_split (key : Key) (d : dict) :
  NoDup (map fst d) ->
  sum_state_fills d =
    (fills_of (dict_get key d) + sum_state_fills (dict_del key d))%Z.
Proof.
  unfold dict_del. induction d as [|[k st] d IH]; intros Hnd; [reflexivity|].
  inversion Hnd as [|? ? Hni Hnd']; subst. cbn [map fst] in Hni.
  cbn [sum_state_fills fold_right dict_get filter fst snd].
  fold (sum_state_fills d).
  destruct (key_eqb key k) eqn:E; cbn [negb].
  - apply key_eqb_eq in E. subst k.
    assert (Hrest : filter (fun kv => negb (key_eqb key (fst kv))) d = d).
    { clear IH Hnd Hnd'. induction d as [|[k' w] d IHd]; [reflexivity|].
      cbn [filter fst]. destruct (key_eqb key k') eqn:E'.
      - apply key_eqb_eq in E'. subst k'. contradiction Hni. left. reflexivity.
      - cbn [negb]. rewrite IHd; [reflexivity|].
        intros H. apply Hni. right. exact H. }
    rewrite Hrest. reflexivity.
  - cbn [sum_state_fills fold_right snd].
    fold (sum_state_fills (filter (fun kv => negb (key_eqb key (fst kv))) d)).
    rewrite (IH Hnd'). lia.
Qed.

Lemma sum_fills_app (l1 l2 : list Pos.t) :
  sum_fills (l1 ++ l2) = (sum_fills l1 + sum_fills l2)%Z.
Proof.
  unfold sum_fills. induction l1 as [|r l1 IH]; cbn; [reflexivity|].
  rewrite IH. lia.
Qed.

(** A row adds one fill to what is counted for its key, or two when it
    flips the position. *)
Lemma key_settle_fills (st0 : St.t) (row : Row.t) (q : float) :
  let total :=
    (sum_fills (fst (key_settle st0 row q)) +
     fills_of (snd (key_settle st0 row q)))%Z in
  total = (St.fills st0 + 1)%Z \/ total = (St.fills st0 + 2)%Z.
Proof.
  unfold key_settle.
  destruct (crosses_zero (St.net_qty st0) (St.net_qty st0 + q));
    destruct (is_flat (St.net_qty st0 + q)); cbn; lia.
Qed.

Lemma process_row_fills (p p' : list Pos.t) (s s' : dict) (row : Row.t) :
  dict_ok s -> live_not_flat s ->
  process_row (p, s) row = Ok (p', s') ->
  let before := (sum_fills p + sum_state_fills s)%Z in
  let after := (sum_fills p' + sum_state_fills s')%Z in
  after = (before + 1)%Z \/ after = (before + 2)%Z.
Proof.
  intros Hok Hlive H.
  destruct (process_row_key_step p s row) as [s1 [Hrun [Hget U]]].
  rewrite Hrun in H. injection H as <- <-.
  assert (Hok' : dict_ok s1).
  { apply (updates_ok U); [|exact Hok].
    intros v [Hv | [st [Hst Hv]]]; [exact Hv|].
    rewrite Hv. exact (dict_ok_get _ Hok Hst). }
  cbv zeta.
  rewrite sum_fills_app.
  rewrite (sum_state_fills_split (row_key row) s (proj1 Hok)).
  rewrite (sum_state_fills_split (row_key row) s1 (proj1 Hok')).
  rewrite (updates_del_same _ _ _ _ U), Hget.
  assert (Hbegin : St.fills (begin_state (dict_get (row_key row) s) row) =
                   fills_of (dict_get (row_key row) s)).
  { unfold begin_state. destruct (dict_get (row_key row) s) as [st|] eqn:E;
      [|reflexivity].
    rewrite (Hlive _ _ E). reflexivity. }
  unfold key_step.
  pose proof (key_settle_fills (begin_state (dict_get (row_key row) s) row)
                row (_signed_qty row)) as Hk.
  cbv zeta in Hk. rewrite Hbegin in Hk. lia.
Qed.

Lemma fold_rows_fills (l : list Row.t) :
  forall (p p' : list Pos.t) (s s' : dict),
    dict_ok s -> live_not_flat s ->
    fold_rows l (p, s) = Ok (p', s') ->
    let before := (sum_fills p + sum_state_fills s)%Z in
    let after := (sum_fills p' + sum_state_fills s')%Z in
    (before + Z.of_nat (length l) <= after <= before + 2 * Z.of_nat (length l))%Z.
Proof.
  induction l as [|row l IH]; intros p p' s s' Hok Hlive H; cbn [fold_rows] in H.
  - injection H as <- <-. cbn [length]. lia.
  - destruct (process_row (p, s) row) as [[p1 s1]|e] eqn:E1; [|discriminate H].
    cbn [bind] in H.
    pose proof (process_row_fills p p1 s s1 row Hok Hlive E1) as Hstep.
    pose proof (@process_row_keeps_ok (p, s) (p1, s1) row Hok E1) as Hok1.
    pose proof (@process_row_live_not_flat (p, s) (p1, s1) row Hlive E1) as Hlive1.
    specialize (IH p1 p' s1 s' Hok1 Hlive1 H).
    cbv zeta in *. cbn [length]. lia.
Qed.

Lemma sum_fills_perm (l l' : list Pos.t) :
  Permutation l l' -> sum_fills l = sum_fills l'.
Proof.
  unfold sum_fills. induction 1; cbn; lia.
Qed.

(** X10.  Every fill is counted, and a fill that flips a position is
    counted twice, in the record it closes and in the one it opens: the
    [fills] of the rows of a returned frame add up to at least the number
    of fills of the input and at most twice that number. *)
Theorem fills_are_counted (quicksort : SortKind) (df : list Raw.t)
    (out : DataFrame) :
  aggregate_trades_to_positions quicksort df = Ok out ->
  (Z.of_nat (length df) <= sum_fills (rows out) <= 2 * Z.of_nat (length df))%Z.
Proof.
  intros Hagg.
  destruct (aggregate_nonempty_ok quicksort (@aggregate_ok_nonempty quicksort _ _ Hagg))
    as [positions [state [Hfold [_ [_ Hout]]]]].
  rewrite Hout in Hagg. injection Hagg as <-. cbn [rows].
  rewrite (sum_fills_perm _ _ (final_sort_perm _ _)).
  assert (Hsum : sum_fills (rows (combine positions (open_positions_of state))) =
                 (sum_fills positions + sum_state_fills state)%Z).
  { rewrite rows_combine.
    assert (Ho : forall s, sum_fills (open_positions_of s) = sum_state_fills s).
    { induction s as [|[k st] s IH]; [reflexivity|].
      unfold sum_fills, sum_state_fills, open_positions_of in *. cbn.
      rewrite IH. reflexivity. }
    assert (Hc : forall l, sum_fills (map (Pos.set_status (Some CLOSED)) l) =
                           sum_fills l).
    { induction l as [|r l IH]; [reflexivity|].
      unfold sum_fills in *. cbn. rewrite IH. reflexivity. }
    destruct (open_positions_of state) as [|o os] eqn:Eo.
    - rewrite <- (Ho state), Eo. cbn. lia.
    - rewrite <- Eo, sum_fills_app, Hc, Ho. reflexivity. }
  rewrite Hsum.
  pose proof (fold_rows_fills (sort row_leb (map normalize df)) [] positions
                [] state dict_ok_nil ltac:(intros k st [=]) Hfold) as H.
  cbv zeta in H. cbn [sum_fills sum_state_fills fold_right] in H.
  rewrite (Permutation_length (sort_perm row_leb _)), length_map in H.
  lia.
Qed.

Lemma fills_are_counted_witness :
  exists out,
    aggregate_trades_to_positions stable fills_flip_dust = Ok out /\
    sum_fills (rows out) = 3%Z /\
    (Z.of_nat (length fills_flip_dust) <= sum_fills (rows out)
     <= 2 * Z.of_nat (length fills_flip_dust))%Z.
Proof.
  eexists. split; [vm_compute; reflexivity|]. split; [reflexivity|].
  apply (fills_are_counted stable fills_flip_dust). vm_compute. reflexivity.
Defined.

Lemma update_ids_any_order_witness :
  exists ids1 ids2,
    update_ids ["BTCUSDT"; "ETHUSDT"] fills_two_symbols [("BTCUSDT", 9%Z)] =
      Some ids1 /\
    update_ids ["ETHUSDT"; "BTCUSDT"] fills_two_symbols [("BTCUSDT", 9%Z)] =
      Some ids2 /\
    forall s, ids_get s ids1 = ids_get s ids2.
Proof.
  assert (Hbtc : exists t, In t fills_two_symbols /\ Raw.symbol t = "BTCUSDT")
    by (eexists; split; [left; reflexivity | reflexivity]).
  assert (Heth : exists t, In t fills_two_symbols /\ Raw.symbol t = "ETHUSDT")
    by (eexists; split; [right; left; reflexivity | reflexivity]).
  apply (update_ids_any_order ["BTCUSDT"; "ETHUSDT"] ["ETHUSDT"; "BTCUSDT"]
           fills_two_symbols [("BTCUSDT", 9%Z)]).
  - intros s. split.
    + intros [<-|[<-|[]]]; assumption.
    + intros [t [[<-|[<-|[<-|[<-|[]]]]] <-]]; cbn; auto.
  - intros s. split.
    + intros [<-|[<-|[]]]; assumption.
    + intros [t [[<-|[<-|[<-|[<-|[]]]]] <-]]; cbn; auto.
Defined.
